(** * Request Control: background script

    A shallow embedding of [src/background.js]: the per-tab record store
    ([records], [addRecord], [removeRecords]), the redirect-chain
    reconciler ([resetRecords]), the rule listener registry
    ([addRuleListeners], [initOnChange]) and the start-up code ([init]).

    The module state of the script (the [records] map, the
    [requestListeners] array, the controller) and the part of the browser
    the script talks to (the listeners registered on
    [webRequest.onBeforeRequest], the calls made on the notifier) are the
    fields of one state record that every function threads through. *)

From Stdlib Require Import ZArith String List Bool Lia.
From stdpp Require Import base option list gmap strings pretty.

Import ListNotations.
Local Open Scope string_scope.
Local Open Scope Z_scope.
Local Open Scope list_scope.

(** ** JavaScript values the script tests *)

(** A property that holds a string or is [undefined]. *)
Definition jsstring := option string.

(** Truthiness of such a value: [undefined] and the empty string are falsy. *)
Definition truthy (v : jsstring) : bool :=
  match v with
  | Some s => negb (String.eqb s "")
  | None => false
  end.

(** [v === s] for a string [s]. *)
Definition strict_eq (v : jsstring) (s : string) : bool :=
  match v with
  | Some t => String.eqb t s
  | None => false
  end.

(** [Array.prototype.pop]: the last element and the array without it;
    [None] on the empty array (where JavaScript returns [undefined] and
    leaves the array alone). *)
Definition pop {A : Type} (a : list A) : option (A * list A) :=
  match rev a with
  | [] => None
  | x :: r => Some (x, rev r)
  end.

(** [Array.prototype.includes] on an array of strings. *)
Definition includes (a : list string) (s : string) : bool :=
  existsb (String.eqb s) a.

Section Background.

(** The compiled rule objects come from [RequestControl/api.js]; the
    script only passes them on. *)
Context {Rule : Type}.

(** ** Records *)

(** The object literal built in [requestControlListener].  [timestamp]
    is the request's [timeStamp] in milliseconds; [rule] is whatever the
    controller left in [request.rule]. *)
Record RequestRecord : Type := mkRecord {
  tabId : Z;
  type : string;
  url : string;
  target : jsstring;
  timestamp : Z;
  rule : option Rule
}.

(** The argument of a [webNavigation.onCommitted] listener. *)
Record Details : Type := mkDetails {
  d_tabId : Z;
  d_frameId : Z;
  d_url : string;
  d_transitionQualifiers : list string
}.

(** ** The two loops of [resetRecords] *)

(** The test of the first loop:
    [lastRecord.target === details.url || isServerRedirect && lastRecord.target]. *)
Definition anchors (durl : string) (isServerRedirect : bool) (r : RequestRecord) : bool :=
  strict_eq (target r) durl || (isServerRedirect && truthy (target r)).

(** The variables the first loop leaves behind. *)
Record Scan : Type := mkScan {
  tabRecords : list RequestRecord;
  keep : list RequestRecord;
  lastRecord : option RequestRecord
}.

(** First loop, [while (i < 5 && tabRecords.length > 0)].  The argument
    [n] is [5 - i]: it goes down by one where the loop does [i++], and the
    [break] is the branch that does not recurse. *)
Fixpoint findAnchor (n : nat) (durl : string) (isServerRedirect : bool)
    (s : Scan) : Scan :=
  match n with
  | O => s
  | S n' =>
    match pop (tabRecords s) with
    | None => s
    | Some (r, rest) =>
      if anchors durl isServerRedirect r
      then mkScan rest (keep s ++ [r]) (Some r)
      else findAnchor n' durl isServerRedirect (mkScan rest (keep s) (Some r))
    end
  end.

(** The test of the second loop:
    [record.target && record.target === lastRecord.url]. *)
Definition chains (r last : RequestRecord) : bool :=
  truthy (target r) && strict_eq (target r) (url last).

(** Second loop, [while (j < 5 && tabRecords.length > 0)], with [n] for
    [5 - j].  It returns what is left of the array and [keep]. *)
Fixpoint walkChain (n : nat) (tabRecords keep : list RequestRecord)
    (lastRecord : RequestRecord) : list RequestRecord * list RequestRecord :=
  match n with
  | O => (tabRecords, keep)
  | S n' =>
    match pop tabRecords with
    | None => (tabRecords, keep)
    | Some (r, rest) =>
      if chains r lastRecord
      then walkChain n' rest (r :: keep) r
      else walkChain n' rest keep lastRecord
    end
  end.

(** Both loops in sequence.  [lastRecord] is still [undefined] after the
    first loop only if that loop popped nothing, that is if the array was
    empty; the guard of the second loop then fails at once and its body,
    which reads [lastRecord.url], does not run
    (lemma [findAnchor_undefined]). *)
Definition scanRecords (durl : string) (isServerRedirect : bool)
    (recs : list RequestRecord) : list RequestRecord * list RequestRecord :=
  let s := findAnchor 5 durl isServerRedirect (mkScan recs [] None) in
  match lastRecord s with
  | Some last => walkChain 5 (tabRecords s) (keep s) last
  | None => (tabRecords s, keep s)
  end.

(** [records.get(tabId)] seen through the two loops: what is kept. *)
Definition keptChain (durl : string) (isServerRedirect : bool)
    (recs : list RequestRecord) : list RequestRecord :=
  snd (scanRecords durl isServerRedirect recs).

(** ** The notifier *)

(** The calls the script makes on the notifier, as a log.  The message of
    [error] is given by its key in the locale files. *)
Inductive NotifierCall : Type :=
  | EnabledState
  | DisabledState (allRecords : gmap Z (list RequestRecord))
  | Notify (tab : Z) (r : option Rule) (count : nat)
  | Clear (tab : Z)
  | Error (tab : option Z) (messageKey : string).

(** ** The browser *)

(** A request as the listeners see it: the [details] of
    [webRequest.onBeforeRequest], with the two properties the controller
    adds to it. *)
Record Request : Type := mkRequest {
  r_tabId : Z;
  r_type : string;
  r_url : string;
  r_redirectUrl : jsstring;
  r_timeStamp : Z;
  r_rule : option Rule
}.

(** The [filter] argument of [addListener]. *)
Record Filter : Type := mkFilter {
  urls : list string;
  types : option (list string)
}.

(** The arrow function created for a rule in [addRuleListeners].  Every
    evaluation of the arrow expression makes a new function object; [lid]
    tells the function objects that were registered apart. *)
Record RuleListener : Type := mkRuleListener {
  lid : nat;
  lrule : Rule
}.

(** The functions the script registers on [webRequest.onBeforeRequest]:
    the arrow functions of the rules and [requestControlListener]. *)
Inductive Listener : Type :=
  | RuleL (l : RuleListener)
  | ControlL.

(** Identity of function objects. *)
Definition same_listener (a b : Listener) : bool :=
  match a, b with
  | RuleL x, RuleL y => Nat.eqb (lid x) (lid y)
  | ControlL, ControlL => true
  | _, _ => false
  end.

(** One registration on [webRequest.onBeforeRequest]. *)
Record Hook : Type := mkHook {
  h_listener : Listener;
  h_filter : Filter;
  h_extraInfoSpec : list string
}.

(** [event.addListener]: a function that is registered already is not
    registered again. *)
Definition addListener (l : Listener) (f : Filter) (extra : list string)
    (hooks : list Hook) : list Hook :=
  if existsb (fun h => same_listener l (h_listener h)) hooks
  then hooks
  else hooks ++ [mkHook l f extra].

(** [event.removeListener]. *)
Definition removeListener (l : Listener) (hooks : list Hook) : list Hook :=
  List.filter (fun h => negb (same_listener l (h_listener h))) hooks.

(** What the script changes in the browser. *)
Record Browser : Type := mkBrowser {
  onBeforeRequest : list Hook;
  tabs_onRemoved : bool;
  webNavigation_onCommitted : bool;
  runtime_onMessage : bool;
  handlerBehaviorChanged : nat;
  tabs_update : list (Z * jsstring)
}.

(** ** What the script imports *)

(** [RequestControl/api.js]: the stored rule [data] with the three
    properties the script reads, the two functions that compile it
    ([None] when they throw) and the match pattern for every URL. *)
Class RuleApi (RuleData Pattern : Type) : Type := {
  active : RuleData -> bool;
  pattern : RuleData -> Pattern;
  data_types : RuleData -> option (list string);
  createRule : RuleData -> option Rule;
  createMatchPatterns : Pattern -> option (list string);
  ALL_URLS : string
}.

(** [RequestControl/control.js]: the state of the [RequestController],
    [markRequest], [clear], and [resolve], which returns the calls it
    makes to its callback, in order, as pairs [(request, updateTab)]. *)
Class ControllerApi (Controller : Type) : Type := {
  markRequest : Controller -> Request -> Rule -> Controller;
  resolve : Controller -> Request -> Controller * list (Request * bool);
  clear : Controller -> Controller
}.

(** The browser: whether it calls a listener registered with this filter
    for this request, and whether [addListener] takes the filter at all
    (it throws when it does not). *)
Class WebRequest : Type := {
  filter_matches : Filter -> Request -> bool;
  filter_accepted : Filter -> bool
}.

Context {RuleData Pattern Controller : Type}.
Context {api : RuleApi RuleData Pattern}.
Context {control : ControllerApi Controller}.
Context {webRequest : WebRequest}.

(** ** The state *)

Record State : Type := mkState {
  records : gmap Z (list RequestRecord);
  requestListeners : list RuleListener;
  controller : Controller;
  notifier : list NotifierCall;
  browser : Browser;
  functions : nat
}.

Definition set_records (m : gmap Z (list RequestRecord)) (st : State) : State :=
  mkState m (requestListeners st) (controller st) (notifier st) (browser st)
    (functions st).

Definition set_controller (c : Controller) (st : State) : State :=
  mkState (records st) (requestListeners st) c (notifier st) (browser st)
    (functions st).

Definition set_browser (b : Browser) (st : State) : State :=
  mkState (records st) (requestListeners st) (controller st) (notifier st) b
    (functions st).

(** A call on the notifier. *)
Definition call (c : NotifierCall) (st : State) : State :=
  mkState (records st) (requestListeners st) (controller st)
    (notifier st ++ [c]) (browser st) (functions st).

Definition set_onBeforeRequest (hooks : list Hook) (b : Browser) : Browser :=
  mkBrowser hooks (tabs_onRemoved b) (webNavigation_onCommitted b)
    (runtime_onMessage b) (handlerBehaviorChanged b) (tabs_update b).

(** The three [addListener] (or [removeListener]) calls of [init] on
    [tabs.onRemoved], [webNavigation.onCommitted] and [runtime.onMessage]. *)
Definition set_eventListeners (on : bool) (b : Browser) : Browser :=
  mkBrowser (onBeforeRequest b) on on on (handlerBehaviorChanged b)
    (tabs_update b).

Definition do_handlerBehaviorChanged (b : Browser) : Browser :=
  mkBrowser (onBeforeRequest b) (tabs_onRemoved b) (webNavigation_onCommitted b)
    (runtime_onMessage b) (S (handlerBehaviorChanged b)) (tabs_update b).

Definition do_tabs_update (tab : Z) (u : jsstring) (b : Browser) : Browser :=
  mkBrowser (onBeforeRequest b) (tabs_onRemoved b) (webNavigation_onCommitted b)
    (runtime_onMessage b) (handlerBehaviorChanged b) (tabs_update b ++ [(tab, u)]).

(** The state when the script is loaded. *)
Definition initial (c : Controller) : State :=
  mkState ∅ [] c [] (mkBrowser [] false false false O []) O.

(** ** The record store *)

(** [removeRecords]. *)
Definition removeRecords (tab : Z) (st : State) : State :=
  set_records (delete tab (records st)) st.

(** [addRecord]: the new length and the new state.  [push] changes the
    array that the map holds, so the map holds the longer array. *)
Definition addRecord (record : RequestRecord) (st : State) : nat * State :=
  let recordsForTab :=
    match records st !! tabId record with
    | Some a => a
    | None => []
    end in
  let pushed := recordsForTab ++ [record] in
  (length pushed, set_records (<[tabId record := pushed]> (records st)) st).

(** [getRecords], for the tab that [tabs.query] finds active. *)
Definition getRecords (activeTab : Z) (st : State) : option (list RequestRecord) :=
  records st !! activeTab.

(** [resetRecords].  [keep.length] is not zero exactly when [keep] has a
    last element, [keep[keep.length - 1]].  The array that the loops
    shorten is the one in the map; both branches take it out of the map. *)
Definition resetRecords (details : Details) (st : State) : State :=
  if Z.eqb (d_frameId details) 0 then
    match records st !! d_tabId details with
    | Some tabRecords =>
      let isServerRedirect :=
        includes (d_transitionQualifiers details) "server_redirect" in
      let keep := keptChain (d_url details) isServerRedirect tabRecords in
      match last keep with
      | Some newest =>
        call (Notify (d_tabId details) (rule newest) (length keep))
          (set_records (<[d_tabId details := keep]> (records st)) st)
      | None =>
        call (Clear (d_tabId details)) (removeRecords (d_tabId details) st)
      end
    | None => st
    end
  else st.

(** ** The rule listener registry *)

(** The stored options, [{ disabled, rules }]; [rules] may be missing. *)
Record Options : Type := mkOptions {
  disabled : bool;
  rules : option (list RuleData)
}.

(** The body of the [for] loop of [addRuleListeners].  The [catch] clause
    runs when one of the calls in the [try] block throws: [createRule],
    [createMatchPatterns], or [addListener] when the browser refuses the
    filter.  In the last case the arrow function is dropped before it is
    registered or pushed on [requestListeners]. *)
Definition installRule (data : RuleData) (st : State) : State :=
  if active data then
    match createRule data with
    | Some rule =>
      match createMatchPatterns (pattern data) with
      | Some urls =>
        let filter := mkFilter urls (data_types data) in
        let listener := mkRuleListener (functions st) rule in
        if filter_accepted filter then
          mkState (records st)
            (requestListeners st ++ [listener])
            (controller st) (notifier st)
            (set_onBeforeRequest
               (addListener (RuleL listener) filter []
                  (onBeforeRequest (browser st)))
               (browser st))
            (S (functions st))
        else call (Error None "error_invalid_rule") st
      | None => call (Error None "error_invalid_rule") st
      end
    | None => call (Error None "error_invalid_rule") st
    end
  else st.

(** [addRuleListeners].  The filter of the last [addListener] is the
    constant of the API for every URL, which the browser takes. *)
Definition addRuleListeners (rules : option (list RuleData)) (st : State) : State :=
  match rules with
  | None => st
  | Some rules =>
    let st' := fold_left (fun st data => installRule data st) rules st in
    set_browser
      (set_onBeforeRequest
         (addListener ControlL (mkFilter [ALL_URLS] None) ["blocking"]
            (onBeforeRequest (browser st')))
         (browser st'))
      st'
  end.

(** [init]. *)
Definition init (options : Options) (st : State) : State :=
  let st' :=
    if disabled options then
      let st1 := call (DisabledState (records st)) st in
      let st2 := set_records ∅ st1 in
      let st3 := set_controller (clear (controller st2)) st2 in
      set_browser (set_eventListeners false (browser st3)) st3
    else
      let st1 := call EnabledState st in
      let st2 := addRuleListeners (rules options) st1 in
      set_browser (set_eventListeners true (browser st2)) st2
  in
  set_browser (do_handlerBehaviorChanged (browser st')) st'.

(** [initOnChange], up to the call of [storage.local.get]: the [while]
    loop pops [requestListeners] until it is empty, so it unregisters the
    listeners from the last to the first.  The [init] that follows runs
    when the stored options arrive. *)
Definition initOnChange (st : State) : State :=
  let hooks :=
    fold_left (fun hooks l => removeListener (RuleL l) hooks)
      (rev (requestListeners st)) (onBeforeRequest (browser st)) in
  mkState (records st) [] (controller st) (notifier st)
    (set_onBeforeRequest (removeListener ControlL hooks) (browser st))
    (functions st).

(** ** The resolution dispatcher *)

(** The callback that [requestControlListener] gives to [resolve]. *)
Definition onResolved (request : Request) (updateTab : bool) (st : State) : State :=
  let (tabRecordsCount, st1) :=
    addRecord
      (mkRecord (r_tabId request) (r_type request) (r_url request)
         (r_redirectUrl request) (r_timeStamp request) (r_rule request))
      st in
  let st2 := call (Notify (r_tabId request) (r_rule request) tabRecordsCount) st1 in
  if updateTab
  then set_browser
         (do_tabs_update (r_tabId request) (r_redirectUrl request) (browser st2))
         st2
  else st2.

(** [requestControlListener]. *)
Definition requestControlListener (request : Request) (st : State) : State :=
  let (c, calls) := resolve (controller st) request in
  fold_left (fun st rc => onResolved (fst rc) (snd rc) st) calls
    (set_controller c st).

Definition runListener (l : Listener) (request : Request) (st : State) : State :=
  match l with
  | RuleL l =>
    set_controller (markRequest (controller st) request (lrule l)) st
  | ControlL => requestControlListener request st
  end.

(** ** Events *)

(** The browser has a request: it calls, in the order of registration,
    the listeners whose filter matches. *)
Definition fireBeforeRequest (request : Request) (st : State) : State :=
  fold_left
    (fun st h =>
       if filter_matches (h_filter h) request
       then runListener (h_listener h) request st
       else st)
    (onBeforeRequest (browser st)) st.

(** What the browser can deliver to the script.  [StorageLoaded] is the
    promise of [storage.local.get] that resolves, when the script is
    loaded and after each [initOnChange]. *)
Inductive Event : Type :=
  | StorageLoaded (options : Options)
  | StorageChanged
  | BeforeRequest (request : Request)
  | Committed (details : Details)
  | TabRemoved (tab : Z).

Definition handle (e : Event) (st : State) : State :=
  match e with
  | StorageLoaded options => init options st
  | StorageChanged => initOnChange st
  | BeforeRequest request => fireBeforeRequest request st
  | Committed details =>
    if webNavigation_onCommitted (browser st) then resetRecords details st else st
  | TabRemoved tab =>
    if tabs_onRemoved (browser st) then removeRecords tab st else st
  end.

(** The states the script can be in. *)
Inductive reachable (c : Controller) : State -> Prop :=
  | reachable_initial : reachable c (initial c)
  | reachable_handle st e : reachable c st -> reachable c (handle e st).

(** A change of the stored options, with the [init] it leads to. *)
Definition reload (options : Options) (st : State) : State :=
  init options (initOnChange st).

(** Events one after the other. *)
Definition run (es : list Event) (st : State) : State :=
  fold_left (fun st e => handle e st) es st.

(** None of the events runs [init]. *)
Definition noLoad (es : list Event) : bool :=
  forallb (fun e => match e with StorageLoaded _ => false | _ => true end) es.

(** ** Operations on the record store *)

Inductive StoreOp : Type :=
  | Append (record : RequestRecord)
  | Reconcile (details : Details)
  | Remove (tab : Z).

Definition applyOp (op : StoreOp) (st : State) : State :=
  match op with
  | Append record => snd (addRecord record st)
  | Reconcile details => resetRecords details st
  | Remove tab => removeRecords tab st
  end.

Definition applyOps (ops : list StoreOp) (st : State) : State :=
  fold_left (fun st op => applyOp op st) ops st.

(** The lengths that a run of [addRecord] returns. *)
Fixpoint addRecords (rs : list RequestRecord) (st : State) : list nat * State :=
  match rs with
  | [] => ([], st)
  | r :: rs' =>
    let (n, st1) := addRecord r st in
    let (ns, st2) := addRecords rs' st1 in
    (n :: ns, st2)
  end.

(** The triple that the record sequence of a tab is said not to repeat. *)
Definition recordKey (r : RequestRecord) : string * option string * Z :=
  (url r, target r, timestamp r).

Definition distinctKeys (st : State) : Prop :=
  forall tab l, records st !! tab = Some l -> NoDup (map recordKey l).

(** The triple of [r] is not among those the tab of [r] holds. *)
Definition freshRecord (r : RequestRecord) (st : State) : bool :=
  match records st !! tabId r with
  | Some l => bool_decide (recordKey r ∉ map recordKey l)
  | None => true
  end.

(** Every [Append] of a run brings a triple that its tab does not hold. *)
Fixpoint freshAppends (ops : list StoreOp) (st : State) : bool :=
  match ops with
  | [] => true
  | op :: ops' =>
    match op with
    | Append r => freshRecord r st
    | _ => true
    end && freshAppends ops' (applyOp op st)
  end.

(** ** Words for the state of the registry *)

(** The hook that [addRuleListeners] registers for
    [requestControlListener]. *)
Definition controlHook : Hook :=
  mkHook ControlL (mkFilter [ALL_URLS] None) ["blocking"].

Definition isRuleHook (h : Hook) : bool :=
  match h_listener h with
  | RuleL _ => true
  | ControlL => false
  end.

(** The hooks of the rules, and the hooks of [requestControlListener]. *)
Definition ruleHooks (hooks : list Hook) : list Hook :=
  List.filter isRuleHook hooks.

Definition controlHooks (hooks : list Hook) : list Hook :=
  List.filter (fun h => negb (isRuleHook h)) hooks.

(** Neither [createRule] nor [createMatchPatterns] throws. *)
Definition compiles (data : RuleData) : bool :=
  match createRule data, createMatchPatterns (pattern data) with
  | Some _, Some _ => true
  | _, _ => false
  end.

(** The active rules that compile. *)
Definition compiling (rules : list RuleData) : list RuleData :=
  List.filter (fun data => active data && compiles data) rules.

(** Nothing in the [try] block throws: the rule compiles and the browser
    takes its filter. *)
Definition installs (data : RuleData) : bool :=
  match createRule data, createMatchPatterns (pattern data) with
  | Some _, Some urls => filter_accepted (mkFilter urls (data_types data))
  | _, _ => false
  end.

(** The active rules for which nothing throws, and those for which
    something does. *)
Definition installable (rules : list RuleData) : list RuleData :=
  List.filter (fun data => active data && installs data) rules.

Definition rejected (rules : list RuleData) : list RuleData :=
  List.filter (fun data => active data && negb (installs data)) rules.

(** What a hook of a rule was made from: the compiled rule, the match
    patterns and the types. *)
Definition hookSource (h : Hook)
    : option Rule * option (list string) * option (list string) :=
  (match h_listener h with
   | RuleL l => Some (lrule l)
   | ControlL => None
   end,
   Some (urls (h_filter h)), types (h_filter h)).

Definition ruleSource (data : RuleData)
    : option Rule * option (list string) * option (list string) :=
  (createRule data, createMatchPatterns (pattern data), data_types data).

(** The listeners of rules among the hooks. *)
Definition hookListeners (hooks : list Hook) : list RuleListener :=
  flat_map
    (fun h => match h_listener h with RuleL l => [l] | ControlL => [] end)
    hooks.

(** The registry is in order: every registered arrow function is in
    [requestListeners], was made before the next one to be made, and
    [requestControlListener] is registered at most once, as
    [controlHook]. *)
Definition tracked (st : State) : Prop :=
  forall l, In l (hookListeners (onBeforeRequest (browser st))) ->
    exists l', In l' (requestListeners st) /\ lid l' = lid l.

Definition fresh (st : State) : Prop :=
  forall l, In l (hookListeners (onBeforeRequest (browser st))) ->
    (lid l < functions st)%nat.

Definition oneControl (st : State) : Prop :=
  controlHooks (onBeforeRequest (browser st)) = [] \/
  controlHooks (onBeforeRequest (browser st)) = [controlHook].

(** The part of the state that the registry is made of. *)
Definition registry (st : State) : list Hook * list RuleListener * nat :=
  (onBeforeRequest (browser st), requestListeners st, functions st).

Definition registry_ok (st : State) : Prop :=
  tracked st /\ fresh st /\ oneControl st.

End Background.

Arguments RequestRecord : clear implicits.
Arguments NotifierCall : clear implicits.
Arguments Request : clear implicits.
Arguments RuleListener : clear implicits.
Arguments Listener : clear implicits.
Arguments Hook : clear implicits.
Arguments Browser : clear implicits.
Arguments State : clear implicits.
Arguments Options : clear implicits.
Arguments Event : clear implicits.
Arguments StoreOp : clear implicits.
Arguments RuleApi : clear implicits.
Arguments ControllerApi : clear implicits.
Arguments WebRequest : clear implicits.

(** ** A small instance

    Rules are named by their uuid.  A stored rule compiles when its
    [s_valid] flag is set and its pattern is not empty.  The browser
    refuses a filter whose list of types is empty.  The controller
    remembers the rule of the last mark and resolves a marked request to
    one call of its callback. *)

Record StoredRule : Type := mkStoredRule {
  s_uuid : string;
  s_active : bool;
  s_valid : bool;
  s_pattern : string;
  s_types : option (list string)
}.

#[export] Instance exampleApi : RuleApi string StoredRule string := {
  active := s_active;
  pattern := s_pattern;
  data_types := s_types;
  createRule := fun d => if s_valid d then Some (s_uuid d) else None;
  createMatchPatterns := fun p => if String.eqb p "" then None else Some [p];
  ALL_URLS := "<all_urls>"
}.

#[export] Instance exampleController : ControllerApi string (option string) := {
  markRequest := fun _ _ r => Some r;
  resolve := fun c request =>
    match c with
    | Some r =>
      (None,
       [(mkRequest (r_tabId request) (r_type request) (r_url request)
           (r_redirectUrl request) (r_timeStamp request) (Some r), false)])
    | None => (None, [])
    end;
  clear := fun _ => None
}.

#[export] Instance exampleWebRequest : WebRequest string := {
  filter_matches := fun f request =>
    includes (urls f) "<all_urls>" || includes (urls f) (r_url request);
  filter_accepted := fun f =>
    match types f with
    | Some [] => false
    | _ => true
    end
}.

Definition exampleState : State string (option string) := initial None.

(** A record of tab 1 that leads from [u] to [t]. *)
Definition hop (u t : string) (time : Z) : RequestRecord string :=
  mkRecord 1 "main_frame" u (Some t) time (Some "rule").

(** A record of tab 1 for a request to [u] that was not redirected. *)
Definition plain (u : string) (time : Z) : RequestRecord string :=
  mkRecord 1 "image" u None time (Some "rule").

(** A top-level commit in tab 1. *)
Definition commit (u : string) (isServerRedirect : bool) : Details :=
  mkDetails 1 0 u (if isServerRedirect then ["server_redirect"] else []).

(** Tab 1 with the given records. *)
Definition tabOne (recs : list (RequestRecord string)) : State string (option string) :=
  set_records {[ 1 := recs ]} exampleState.

(** Six records of tab 1, oldest first: a redirect from [x] to [e], the
    request to [e], and four more requests. *)
Definition sixRecords : list (RequestRecord string) :=
  [hop "x" "e" 1; plain "e" 2; plain "d" 3; plain "c" 4; plain "b" 5; plain "a" 6].

(** Ten records of tab 1, oldest first; only the seventh from the newest
    end has the target [z]. *)
Definition tenRecords : list (RequestRecord string) :=
  [plain "j" 1; plain "i" 2; plain "h" 3] ++
  hop "g" "z" 4 ::
  [plain "f" 5; hop "e" "y" 6; plain "d" 7; plain "c" 8; plain "b" 9; plain "a" 10].

(** Six stored rules: two that compile and are registered, one whose body
    [createRule] rejects, one that is not active, one whose pattern
    [createMatchPatterns] rejects, and one that compiles but has an empty
    list of types. *)
Definition exampleRules : list StoredRule :=
  [mkStoredRule "r1" true true "http://a/*" None;
   mkStoredRule "r2" true false "http://b/*" None;
   mkStoredRule "r3" false true "http://c/*" None;
   mkStoredRule "r4" true true "http://d/*" (Some ["image"]);
   mkStoredRule "r5" true true "" None;
   mkStoredRule "r6" true true "http://e/*" (Some [])].


(** A request in tab 1 for the pattern of rule [r1]. *)
Definition exampleRequest : Request string :=
  mkRequest 1 "image" "http://a/*" None 5 None.

(** A request and a further change of the options. *)
Definition quietEvents : list (Event string StoredRule) :=
  [BeforeRequest exampleRequest; StorageChanged].

(** ** Words for the record sequences *)

Section Sequences.

Context {Rule Controller : Type}.

(** Every record of the list leads to the next one: it passes the test of
    the second loop of [resetRecords] against its successor. *)
Fixpoint chained (l : list (RequestRecord Rule)) : Prop :=
  match l with
  | a :: (b :: _) as rest => chains a b = true /\ chained rest
  | _ => True
  end.

(** No tab is mapped to an empty array. *)
Definition nonEmptySequences (st : State Rule Controller) : Prop :=
  forall tab l, records st !! tab = Some l -> l <> [].

(** Every record is in the array of its own [tabId]. *)
Definition filedByTab (st : State Rule Controller) : Prop :=
  forall tab l r, records st !! tab = Some l -> In r l -> tabId r = tab.

(** The parts of the state that installing listeners does not change;
    the notifier only gets more calls. *)
Definition sameButRegistry (st st' : State Rule Controller) : Prop :=
  records st' = records st /\
  controller st' = controller st /\
  notifier st `prefix_of` notifier st' /\
  tabs_onRemoved (browser st') = tabs_onRemoved (browser st) /\
  webNavigation_onCommitted (browser st') = webNavigation_onCommitted (browser st) /\
  runtime_onMessage (browser st') = runtime_onMessage (browser st) /\
  handlerBehaviorChanged (browser st') = handlerBehaviorChanged (browser st) /\
  tabs_update (browser st') = tabs_update (browser st).

End Sequences.

(** * The popup, [src/popup/browser-action.js] *)

Module Popup.

(** [digit.toString()] for a non-negative integer below [10^21]: the
    decimal digits.  (From [10^21] on JavaScript writes an exponent; the
    getters of a [Date] stay below 1000.) *)
Definition toString (digit : nat) : string := pretty digit.

(** [String.prototype.repeat]. *)
Fixpoint repeat (s : string) (count : nat) : string :=
  match count with
  | O => ""
  | S count' => s +:+ repeat s count'
  end.

(** [padDigit]. *)
Definition padDigit (digit padSize : nat) : string :=
  let str := toString digit in
  let pad := Z.of_nat padSize - Z.of_nat (String.length str) in
  if pad >? 0 then repeat "0" (Z.to_nat pad) +:+ str else str.

(** What [timestamp] reads from [new Date(ms)]. *)
Record Date : Type := mkDate {
  getHours : nat;
  getMinutes : nat;
  getSeconds : nat;
  getMilliseconds : nat
}.

(** The range of the four getters. *)
Definition validDate (d : Date) : bool :=
  (getHours d <? 24)%nat && (getMinutes d <? 60)%nat &&
  (getSeconds d <? 60)%nat && (getMilliseconds d <? 1000)%nat.

(** [timestamp], from the [Date] on. *)
Definition timestamp (d : Date) : string :=
  (((((padDigit (getHours d) 2 +:+ ":") +:+ padDigit (getMinutes d) 2) +:+ ":")
      +:+ padDigit (getSeconds d) 2) +:+ ".")
  +:+ padDigit (getMilliseconds d) 3.

(** [getRule], on the rules of the options; [None] is [null]. *)
Fixpoint getRule {RuleData : Type} (rule_uuid : RuleData -> string)
    (rules : list RuleData) (uuid : string) : option RuleData :=
  match rules with
  | [] => None
  | rule :: rest =>
    if String.eqb (rule_uuid rule) uuid then Some rule
    else getRule rule_uuid rest uuid
  end.

(** A quarter past nine and a bit. *)
Definition exampleDate : Date := mkDate 9 15 7 42.

End Popup.

(** Three records of tab 1, oldest first: a chain from [A] over [B] to
    [C] and a later request. *)
Definition chainAndMore : list (RequestRecord string) :=
  [hop "A" "B" 1; hop "B" "C" 2; plain "s" 3].

(** The state after the options with [exampleRules] were loaded and
    [exampleRequest] was made. *)
Definition busyState : State string (option string) :=
  handle (BeforeRequest exampleRequest)
    (handle (StorageLoaded (mkOptions false (Some exampleRules))) exampleState).

(** * Proofs *)

(** ** Arrays *)

Lemma pop_snoc {A : Type} (l : list A) (x : A) : pop (l ++ [x]) = Some (x, l).
Proof.
  unfold pop. rewrite rev_app_distr. simpl. by rewrite rev_involutive.
Qed.

Lemma pop_Some {A : Type} (a r : list A) (x : A) :
  pop a = Some (x, r) -> a = r ++ [x].
Proof.
  unfold pop. destruct (rev a) as [|y t] eqn:E; [done|].
  intros [= <- <-].
  rewrite <- (rev_involutive a), E. reflexivity.
Qed.

Lemma pop_None {A : Type} (a : list A) : pop a = None -> a = [].
Proof.
  unfold pop. destruct (rev a) as [|y t] eqn:E; [|done].
  intros _. rewrite <- (rev_involutive a), E. reflexivity.
Qed.

(** The end of a list that is no longer than a given end of it is the end
    of that end. *)
Lemma app_eq_suffix {A : Type} (l1 l2 t p : list A) :
  l1 ++ l2 = t ++ p -> (length p <= length l2)%nat -> exists k, l2 = k ++ p.
Proof.
  intros Heq Hlen.
  assert (Hl : (length l1 + length l2 = length t + length p)%nat).
  { rewrite <- !length_app. by rewrite Heq. }
  exists (take (length t - length l1) l2).
  assert (Hp : p = drop (length t - length l1) l2).
  { rewrite <- (drop_app_length t p), <- Heq, drop_app_ge by lia. done. }
  rewrite Hp. by rewrite take_drop.
Qed.

Section Reconciler.

Context {Rule : Type}.
Implicit Types (r x : RequestRecord Rule) (recs popped : list (RequestRecord Rule)).

(** ** The first loop *)

(** What [findAnchor] does to the variables: it pops at most [n] records;
    either none of them passes the test and [keep] is unchanged, or the
    oldest one popped passes it, is pushed on [keep] and is [lastRecord]. *)
Lemma findAnchor_spec (n : nat) (durl : string) (sr : bool) (s : @Scan Rule) :
  let s' := findAnchor n durl sr s in
  exists popped,
    tabRecords s = tabRecords s' ++ popped /\
    (length popped <= n)%nat /\
    ((keep s' = keep s /\
      Forall (fun r => anchors durl sr r = false) popped /\
      (popped = [] -> lastRecord s' = lastRecord s) /\
      (length popped = n \/ tabRecords s' = [])) \/
     (exists x rest,
        popped = x :: rest /\ anchors durl sr x = true /\
        Forall (fun r => anchors durl sr r = false) rest /\
        keep s' = keep s ++ [x] /\ lastRecord s' = Some x)).
Proof.
  revert s. induction n as [|n IH]; intros s; simpl.
  - exists []. rewrite app_nil_r. split; [done|]. split; [done|].
    left. repeat split; auto.
  - destruct (pop (tabRecords s)) as [[r rest]|] eqn:Hpop.
    + apply pop_Some in Hpop.
      destruct (anchors durl sr r) eqn:Hr.
      * exists [r]. simpl. split; [done|]. split; [lia|].
        right. exists r, []. repeat split; auto.
      * destruct (IH (mkScan rest (keep s) (Some r)))
          as (popped & Ht & Hlen & Hcase). simpl in *.
        remember (findAnchor n durl sr (mkScan rest (keep s) (Some r))) as s2.
        exists (popped ++ [r]).
        split; [by rewrite Hpop, Ht, app_assoc|].
        rewrite length_app. simpl. split; [lia|].
        destruct Hcase as [(Hk & Hall & _ & Hend)|(x & rest' & -> & Hx & Hall & Hk & Hl)].
        -- left. repeat split; auto.
           ++ apply Forall_app. split; [done|]. by constructor.
           ++ intros Hnil. by destruct popped.
           ++ destruct Hend; [left; lia|by right].
        -- right. exists x, (rest' ++ [r]). repeat split; auto.
           apply Forall_app. split; [done|]. by constructor.
    + apply pop_None in Hpop.
      exists []. rewrite app_nil_r. split; [done|]. split; [simpl; lia|].
      left. repeat split; auto.
Qed.

(** Once a record was popped, [lastRecord] is defined. *)
Lemma findAnchor_defined (n : nat) (durl : string) (sr : bool) (s : @Scan Rule) :
  is_Some (lastRecord s) -> is_Some (lastRecord (findAnchor n durl sr s)).
Proof.
  revert s. induction n as [|n IH]; intros s Hs; simpl; [done|].
  destruct (pop (tabRecords s)) as [[r rest]|]; [|done].
  destruct (anchors durl sr r); [by eexists|].
  apply IH. by eexists.
Qed.

(** [lastRecord] stays [undefined] only over an empty array: the second
    loop never reads [lastRecord.url] of [undefined]. *)
Lemma findAnchor_undefined (durl : string) (sr : bool) recs :
  let s := findAnchor 5 durl sr (mkScan recs [] None) in
  lastRecord s = None -> tabRecords s = [].
Proof.
  simpl. destruct (pop recs) as [[r rest]|] eqn:Hpop.
  - destruct (anchors durl sr r); [done|].
    intros Hnone.
    destruct (findAnchor_defined 4 durl sr (mkScan rest [] (Some r))) as [x Hx];
      [by eexists|].
    simpl in Hx. congruence.
  - intros _. simpl. by apply pop_None.
Qed.

(** ** The second loop *)

(** [walkChain] pops at most [n] records and puts some of them, in their
    order, in front of [keep]. *)
Lemma walkChain_spec (n : nat) recs (k : list (RequestRecord Rule)) (last : RequestRecord Rule) :
  exists popped added,
    recs = fst (walkChain n recs k last) ++ popped /\
    (length popped <= n)%nat /\
    snd (walkChain n recs k last) = added ++ k /\
    added `sublist_of` popped.
Proof.
  revert recs k last. induction n as [|n IH]; intros recs k last; simpl.
  - exists [], []. rewrite app_nil_r. repeat split; auto.
  - destruct (pop recs) as [[r rest]|] eqn:Hpop.
    + apply pop_Some in Hpop.
      destruct (chains r last).
      * destruct (IH rest (r :: k) r) as (popped & added & Ht & Hlen & Hk & Hsub).
        exists (popped ++ [r]), (added ++ [r]).
        split; [by rewrite Hpop, Ht at 1; rewrite app_assoc|].
        rewrite length_app. simpl. split; [lia|].
        split; [by rewrite Hk, <- app_assoc|].
        by apply sublist_app.
      * destruct (IH rest k last) as (popped & added & Ht & Hlen & Hk & Hsub).
        exists (popped ++ [r]), added.
        split; [by rewrite Hpop, Ht at 1; rewrite app_assoc|].
        rewrite length_app. simpl. split; [lia|].
        split; [done|].
        by apply sublist_inserts_r.
    + exists [], []. simpl. rewrite app_nil_r. repeat split; auto; lia.
Qed.

(** ** Both loops *)

(** What is kept is part of the old sequence, in the old order, and is
    taken from its ten newest records: at most one by the first loop and
    at most five by the second. *)
Lemma keptChain_spec (durl : string) (sr : bool) recs :
  exists untouched popped,
    recs = untouched ++ popped /\
    (length popped <= 10)%nat /\
    keptChain durl sr recs `sublist_of` popped /\
    (length (keptChain durl sr recs) <= 6)%nat.
Proof.
  unfold keptChain, scanRecords.
  pose proof (findAnchor_spec 5 durl sr (mkScan recs [] None)) as H.
  cbv zeta in H. cbn [tabRecords keep lastRecord] in H.
  remember (findAnchor 5 durl sr (mkScan recs [] None)) as s.
  destruct H as (popped1 & Ht1 & Hlen1 & Hcase).
  assert (Hk1 : keep s `sublist_of` popped1 /\ (length (keep s) <= 1)%nat).
  { destruct Hcase as [(-> & _)|(x & rest & -> & _ & _ & -> & _)].
    - split; [apply sublist_nil_l|simpl; lia].
    - split; [|simpl; lia]. apply sublist_skip, sublist_nil_l. }
  destruct Hk1 as [Hsub1 Hlk1].
  destruct (lastRecord s) as [last|].
  - destruct (walkChain_spec 5 (tabRecords s) (keep s) last)
      as (popped2 & added & Ht2 & Hlen2 & Hk2 & Hsub2).
    exists (fst (walkChain 5 (tabRecords s) (keep s) last)), (popped2 ++ popped1).
    split; [by rewrite Ht1, Ht2 at 1; rewrite app_assoc|].
    rewrite length_app. split; [lia|].
    rewrite Hk2. split; [by apply sublist_app|].
    rewrite length_app. apply sublist_length in Hsub2. lia.
  - exists (tabRecords s), popped1. simpl.
    repeat split; auto; lia.
Qed.

Lemma keptChain_sublist (durl : string) (sr : bool) recs :
  keptChain durl sr recs `sublist_of` recs.
Proof.
  destruct (keptChain_spec durl sr recs) as (u & p & -> & _ & Hsub & _).
  by apply sublist_inserts_l.
Qed.

(** With nothing to anchor among at most five records, nothing is kept. *)
Lemma keptChain_none (durl : string) (sr : bool) recs :
  (length recs <= 5)%nat ->
  Forall (fun r => anchors durl sr r = false) recs ->
  keptChain durl sr recs = [].
Proof.
  intros Hlen Hall. unfold keptChain, scanRecords.
  pose proof (findAnchor_spec 5 durl sr (mkScan recs [] None)) as H.
  cbv zeta in H. cbn [tabRecords keep lastRecord] in H.
  remember (findAnchor 5 durl sr (mkScan recs [] None)) as s.
  destruct H as (popped & Ht & Hlp & [(Hk & _ & _ & Hend)|(x & rest & -> & Hx & _)]).
  - assert (Hnil : tabRecords s = []).
    { destruct Hend as [Hfive|]; [|done].
      rewrite Ht, length_app in Hlen. destruct (tabRecords s); [done|simpl in Hlen; lia]. }
    rewrite Hnil, Hk. by destruct (lastRecord s).
  - rewrite Ht in Hall. apply Forall_app in Hall as [_ Hall].
    apply Forall_cons in Hall as [Hx' _]. congruence.
Qed.

(** C3. Each of the two loops of [resetRecords] takes at most five records
    from the end of the tab's array, however long the array is.  In
    particular, when the array has ten records and the seventh from the
    newest end is the only one whose target is the committed URL, the
    first loop does not put that record in [keep]; without a server
    redirect it puts nothing in [keep]. *)
Theorem resetRecords_scans_five (durl : string) (sr : bool) recs :
  let s := findAnchor 5 durl sr (mkScan recs [] None) in
  (exists popped, recs = tabRecords s ++ popped /\ (length popped <= 5)%nat) /\
  (forall last,
     exists popped,
       tabRecords s = fst (walkChain 5 (tabRecords s) (keep s) last) ++ popped /\
       (length popped <= 5)%nat) /\
  (forall older r newer,
     recs = older ++ r :: newer ->
     length older = 3%nat -> length newer = 6%nat ->
     strict_eq (target r) durl = true ->
     forallb (fun x => negb (strict_eq (target x) durl)) (older ++ newer) = true ->
     ~ In r (keep s) /\ (sr = false -> keep s = [])).
Proof.
  pose proof (findAnchor_spec 5 durl sr (mkScan recs [] None)) as H.
  cbv zeta in *. cbn [tabRecords keep lastRecord] in H.
  remember (findAnchor 5 durl sr (mkScan recs [] None)) as s.
  destruct H as (popped & Ht & Hlp & Hcase).
  split; [by exists popped|].
  split.
  { intros last.
    destruct (walkChain_spec 5 (tabRecords s) (keep s) last)
      as (popped2 & added & Ht2 & Hlen2 & _).
    by exists popped2. }
  intros older r newer Hrecs Hold Hnew Hr Hothers.
  rewrite Hrecs in Ht.
  destruct (app_eq_suffix older (r :: newer) (tabRecords s) popped Ht)
    as [k Hk]; [simpl; lia|].
  assert (Hin : forall x, In x popped -> strict_eq (target x) durl = false).
  { destruct k as [|r' k].
    - apply (f_equal length) in Hk. simpl in Hk. lia.
    - injection Hk as <- Hk. intros x Hx.
      rewrite forallb_app in Hothers. apply andb_prop in Hothers as [_ Hothers].
      rewrite forallb_forall in Hothers.
      apply negb_true_iff, Hothers. rewrite Hk. apply in_or_app. by right. }
  destruct Hcase as [(-> & _)|(x & rest & -> & Hx & _ & -> & _)].
  - split; [by intros []|done].
  - specialize (Hin x (or_introl eq_refl)).
    split.
    + simpl. intros [->|[]]. congruence.
    + intros ->. unfold anchors in Hx. rewrite Hin in Hx. done.
Qed.

(** C10 (on the loops). At most six records are kept. *)
Lemma keptChain_length (durl : string) (sr : bool) recs :
  (length (keptChain durl sr recs) <= 6)%nat.
Proof.
  by destruct (keptChain_spec durl sr recs) as (u & p & _ & _ & _ & Hlen).
Qed.

End Reconciler.

Section Store.

Context {Rule Controller : Type}.
Implicit Types (st : State Rule Controller) (r : RequestRecord Rule)
  (recs : list (RequestRecord Rule)).

(** ** [resetRecords] *)

(** A commit in a top-level frame of a tab that has records. *)
Lemma resetRecords_top st (details : Details) recs :
  d_frameId details = 0 ->
  records st !! d_tabId details = Some recs ->
  resetRecords details st =
    let keep :=
      keptChain (d_url details)
        (includes (d_transitionQualifiers details) "server_redirect") recs in
    match last keep with
    | Some newest =>
      call (Notify (d_tabId details) (rule newest) (length keep))
        (set_records (<[d_tabId details := keep]> (records st)) st)
    | None => call (Clear (d_tabId details)) (removeRecords (d_tabId details) st)
    end.
Proof.
  intros Hframe Hrecs. unfold resetRecords. by rewrite Hframe, Hrecs.
Qed.

(** When nothing is kept, the sequence is deleted and the indicator
    cleared. *)
Lemma resetRecords_nothing_kept st (details : Details) recs :
  d_frameId details = 0 ->
  records st !! d_tabId details = Some recs ->
  keptChain (d_url details)
    (includes (d_transitionQualifiers details) "server_redirect") recs = [] ->
  records (resetRecords details st) = delete (d_tabId details) (records st) /\
  notifier (resetRecords details st) = notifier st ++ [Clear (d_tabId details)].
Proof.
  intros Hframe Hrecs Hkeep.
  rewrite (resetRecords_top st details recs Hframe Hrecs). cbv zeta.
  rewrite Hkeep. simpl. done.
Qed.

(** A tab with at most five records, none of which passes the test of the
    first loop, loses its sequence. *)
Lemma resetRecords_no_anchor_short st (details : Details) recs :
  d_frameId details = 0 ->
  records st !! d_tabId details = Some recs ->
  (length recs <= 5)%nat ->
  Forall (fun r =>
            anchors (d_url details)
              (includes (d_transitionQualifiers details) "server_redirect") r
            = false) recs ->
  records (resetRecords details st) !! d_tabId details = None /\
  notifier (resetRecords details st) = notifier st ++ [Clear (d_tabId details)].
Proof.
  intros Hframe Hrecs Hlen Hall.
  destruct (resetRecords_nothing_kept st details recs Hframe Hrecs) as [Hr Hn].
  { by apply keptChain_none. }
  rewrite Hr, Hn. split; [apply lookup_delete_eq|done].
Qed.

(** The sequence [[{url:A,target:B}, {url:B,target:C}]] and a commit to a
    URL [D] that is neither [B] nor [C], without a server redirect: the
    sequence is deleted and the indicator cleared. *)
Lemma resetRecords_commit_elsewhere st (tab : Z) (A B C D : string)
    (ty1 ty2 : string) (ts1 ts2 : Z) (ru1 ru2 : option Rule)
    (qualifiers : list string) :
  B <> D -> C <> D ->
  includes qualifiers "server_redirect" = false ->
  records st !! tab =
    Some [mkRecord tab ty1 A (Some B) ts1 ru1; mkRecord tab ty2 B (Some C) ts2 ru2] ->
  let st' := resetRecords (mkDetails tab 0 D qualifiers) st in
  records st' !! tab = None /\ notifier st' = notifier st ++ [Clear tab].
Proof.
  intros HB HC Hsr Hrecs.
  apply (resetRecords_no_anchor_short st (mkDetails tab 0 D qualifiers) _ eq_refl Hrecs).
  - simpl. lia.
  - simpl. rewrite Hsr. unfold anchors. simpl.
    apply String.eqb_neq in HB, HC.
    repeat constructor; simpl; by rewrite ?HB, ?HC.
Qed.

(** C2. The sequence [[{url:A,target:B}, {url:B,target:C}]], with [B] a
    URL (a string that JavaScript takes for true, that is not the empty
    string), and a top-level commit to [C]: both
    records are kept in their order, and [notify] is called with the tab,
    the rule of the newer record and the count 2.  This holds whatever the
    transition qualifiers are, so also without a server redirect. *)
Theorem resetRecords_keeps_chain st (tab : Z) (A B C : string)
    (ty1 ty2 : string) (ts1 ts2 : Z) (ru1 ru2 : option Rule)
    (qualifiers : list string) :
  truthy (Some B) = true ->
  records st !! tab =
    Some [mkRecord tab ty1 A (Some B) ts1 ru1; mkRecord tab ty2 B (Some C) ts2 ru2] ->
  let st' := resetRecords (mkDetails tab 0 C qualifiers) st in
  records st' !! tab =
    Some [mkRecord tab ty1 A (Some B) ts1 ru1; mkRecord tab ty2 B (Some C) ts2 ru2] /\
  notifier st' = notifier st ++ [Notify tab ru2 2].
Proof.
  intros HB Hrecs. cbv zeta.
  rewrite (resetRecords_top st (mkDetails tab 0 C qualifiers) _ eq_refl Hrecs).
  cbv zeta. cbn [d_url d_tabId d_transitionQualifiers].
  assert (Hkeep : forall sr,
    keptChain C sr
      [mkRecord tab ty1 A (Some B) ts1 ru1; mkRecord tab ty2 B (Some C) ts2 ru2]
    = [mkRecord tab ty1 A (Some B) ts1 ru1; mkRecord tab ty2 B (Some C) ts2 ru2]).
  { intros sr. unfold keptChain, scanRecords. simpl.
    unfold anchors. simpl. rewrite String.eqb_refl. simpl.
    unfold chains. simpl. rewrite String.eqb_refl.
    simpl in HB. by rewrite HB. }
  rewrite Hkeep. simpl. split; [apply lookup_insert_eq|done].
Qed.

(** The link between the two records is the test
    [record.target && record.target === lastRecord.url]: an older record
    whose target is the empty string is not kept, whatever the URL of the
    newer record is. *)
Lemma resetRecords_empty_target st (tab : Z) (A U C : string)
    (ty1 ty2 : string) (ts1 ts2 : Z) (ru1 ru2 : option Rule)
    (qualifiers : list string) :
  records st !! tab =
    Some [mkRecord tab ty1 A (Some "") ts1 ru1; mkRecord tab ty2 U (Some C) ts2 ru2] ->
  let st' := resetRecords (mkDetails tab 0 C qualifiers) st in
  records st' !! tab = Some [mkRecord tab ty2 U (Some C) ts2 ru2] /\
  notifier st' = notifier st ++ [Notify tab ru2 1].
Proof.
  intros Hrecs. cbv zeta.
  rewrite (resetRecords_top st (mkDetails tab 0 C qualifiers) _ eq_refl Hrecs).
  cbv zeta. cbn [d_url d_tabId d_transitionQualifiers].
  unfold keptChain, scanRecords. simpl.
  unfold anchors. simpl. rewrite String.eqb_refl. simpl.
  split; [apply lookup_insert_eq|done].
Qed.

(** C4. The sequence [[{url:A,target:B}]] with [B] not empty and a
    top-level commit to [C], with [B === C] false, that is a server
    redirect: the record does not match the committed URL, it is adopted
    by the first loop all the same, the sequence after the commit is the
    same one record and [notify] is called with the count 1. *)
Theorem resetRecords_server_redirect st (tab : Z) (A B C : string)
    (ty : string) (ts : Z) (ru : option Rule) (qualifiers : list string) :
  truthy (Some B) = true ->
  strict_eq (Some B) C = false ->
  includes qualifiers "server_redirect" = true ->
  records st !! tab = Some [mkRecord tab ty A (Some B) ts ru] ->
  let r := mkRecord tab ty A (Some B) ts ru in
  let st' := resetRecords (mkDetails tab 0 C qualifiers) st in
  strict_eq (target r) C = false /\
  keep (findAnchor 5 C true (mkScan [r] [] None)) = [r] /\
  records st' !! tab = Some [r] /\
  notifier st' = notifier st ++ [Notify tab ru 1].
Proof.
  intros HB HBC Hsr Hrecs. cbv zeta. simpl in HB, HBC.
  rewrite (resetRecords_top st (mkDetails tab 0 C qualifiers) _ eq_refl Hrecs).
  cbv zeta. cbn [d_url d_tabId d_transitionQualifiers]. rewrite Hsr.
  unfold keptChain, scanRecords. simpl. unfold anchors. simpl.
  rewrite HBC, HB. simpl.
  repeat split; auto. apply lookup_insert_eq.
Qed.

(** C10. When a top-level commit leaves a sequence for the tab, that
    sequence is what the two loops kept; it is not empty and has at most
    six records. *)
Theorem resetRecords_keeps_at_most_six st (details : Details) recs
    (kept : list (RequestRecord Rule)) :
  d_frameId details = 0 ->
  records st !! d_tabId details = Some recs ->
  records (resetRecords details st) !! d_tabId details = Some kept ->
  kept = keptChain (d_url details)
           (includes (d_transitionQualifiers details) "server_redirect") recs /\
  kept <> [] /\
  (length kept <= 6)%nat.
Proof.
  intros Hframe Hrecs.
  rewrite (resetRecords_top st details recs Hframe Hrecs). cbv zeta.
  destruct (last _) as [newest|] eqn:Hlast.
  - simpl. rewrite lookup_insert_eq. intros [= <-].
    split; [done|]. split; [|apply keptChain_length].
    intros Hnil. by rewrite Hnil in Hlast.
  - simpl. by rewrite lookup_delete_eq.
Qed.

(** ** [addRecord] *)

(** The array of a tab, read as empty while the map has none. *)
Lemma addRecord_spec r st :
  let old := default [] (records st !! tabId r) in
  fst (addRecord r st) = S (length old) /\
  records (snd (addRecord r st)) = <[tabId r := old ++ [r]]> (records st).
Proof.
  unfold addRecord. simpl.
  destruct (records st !! tabId r); simpl; rewrite ?length_app; simpl;
    (split; [lia|done]).
Qed.

Lemma addRecords_cons r (rs : list (RequestRecord Rule)) st :
  addRecords (r :: rs) st =
    (fst (addRecord r st) :: fst (addRecords rs (snd (addRecord r st))),
     snd (addRecords rs (snd (addRecord r st)))).
Proof.
  cbn [addRecords]. destruct (addRecord r st) as [n st1]. cbn [fst snd].
  by destruct (addRecords rs st1).
Qed.

(** A run of [addRecord] for one tab, from any array [old] of that tab. *)
Lemma addRecords_spec (tab : Z) (rs : list (RequestRecord Rule)) :
  forallb (fun r => Z.eqb (tabId r) tab) rs = true ->
  forall st old,
    default [] (records st !! tab) = old ->
    fst (addRecords rs st) = seq (S (length old)) (length rs) /\
    (rs <> [] -> records (snd (addRecords rs st)) !! tab = Some (old ++ rs)) /\
    (forall other, other <> tab ->
       records (snd (addRecords rs st)) !! other = records st !! other).
Proof.
  induction rs as [|r rs IH]; intros Htab st old Hold.
  - simpl. repeat split; auto. by intros [].
  - simpl in Htab. apply andb_prop in Htab as [Hr Htab].
    apply Z.eqb_eq in Hr.
    destruct (addRecord_spec r st) as [Hn Hm]. rewrite Hr, Hold in Hn, Hm.
    rewrite addRecords_cons.
    remember (snd (addRecord r st)) as st1.
    assert (Hold1 : default [] (records st1 !! tab) = old ++ [r]).
    { by rewrite Hm, lookup_insert_eq. }
    destruct (IH Htab st1 (old ++ [r]) Hold1) as (Hns & Hseq & Hother).
    cbn [fst snd].
    rewrite length_app in Hns. simpl in Hns.
    replace (length old + 1)%nat with (S (length old)) in Hns by lia.
    split; [by rewrite Hn, Hns|]. split.
    + intros _. destruct rs as [|r' rs'].
      * simpl. by rewrite Hm, lookup_insert_eq.
      * rewrite Hseq by done. by rewrite <- app_assoc.
    + intros other Hne. rewrite Hother by done.
      rewrite Hm. by apply lookup_insert_ne.
Qed.

(** C6. From a state in which the tab has no sequence, [N] calls of
    [addRecord] with records of that tab return 1, 2, ..., [N], leave the
    tab with exactly these [N] records in the order of the calls, and do
    not touch other tabs.  Every call returns the length that the sequence
    of the record's tab has right after it, and the first call for a tab
    makes the sequence. *)
Theorem addRecord_appends st (tab : Z) (rs : list (RequestRecord Rule)) :
  records st !! tab = None ->
  forallb (fun r => Z.eqb (tabId r) tab) rs = true ->
  fst (addRecords rs st) = seq 1 (length rs) /\
  default [] (records (snd (addRecords rs st)) !! tab) = rs /\
  length (default [] (records (snd (addRecords rs st)) !! tab)) = length rs /\
  (rs <> [] -> records (snd (addRecords rs st)) !! tab = Some rs) /\
  (forall other, other <> tab ->
     records (snd (addRecords rs st)) !! other = records st !! other) /\
  (forall r, tabId r = tab ->
     records (snd (addRecord r st)) !! tab = Some [r]) /\
  (forall r st0,
     exists l,
       records (snd (addRecord r st0)) !! tabId r = Some l /\
       fst (addRecord r st0) = length l).
Proof.
  intros Hnone Htab.
  destruct (addRecords_spec tab rs Htab st []) as (Hns & Hseq & Hother).
  { by rewrite Hnone. }
  assert (Hdef : default [] (records (snd (addRecords rs st)) !! tab) = rs).
  { destruct rs as [|r rs']; [simpl; by rewrite Hnone|].
    by rewrite Hseq. }
  split; [done|]. split; [done|]. split; [by rewrite Hdef|].
  split; [done|]. split; [done|]. split.
  - intros r <-. destruct (addRecord_spec r st) as [_ Hm].
    rewrite Hm, Hnone. apply lookup_insert_eq.
  - intros r st0. destruct (addRecord_spec r st0) as [Hn Hm].
    exists (default [] (records st0 !! tabId r) ++ [r]).
    rewrite Hm, lookup_insert_eq, Hn, length_app. simpl. split; [done|lia].
Qed.

(** ** Repeated records *)

Lemma distinctKeys_initial (c : Controller) : distinctKeys (@initial Rule _ c).
Proof. intros tab l. simpl. by rewrite lookup_empty. Qed.

Lemma distinctKeys_addRecord r st :
  freshRecord r st = true -> distinctKeys st -> distinctKeys (snd (addRecord r st)).
Proof.
  intros Hfresh Hst tab l.
  destruct (addRecord_spec r st) as [_ ->].
  destruct (decide (tab = tabId r)) as [->|Hne].
  - rewrite lookup_insert_eq. intros [= <-].
    unfold freshRecord in Hfresh.
    rewrite map_app. simpl. apply NoDup_app.
    destruct (records st !! tabId r) as [old|] eqn:Hold; simpl.
    + apply bool_decide_eq_true in Hfresh.
      split; [by apply (Hst (tabId r))|]. split.
      * intros k Hk Hin. apply list_elem_of_singleton in Hin. by subst.
      * apply NoDup_singleton.
    + split; [constructor|]. split; [by intros k Hk%elem_of_nil|].
      apply NoDup_singleton.
  - rewrite lookup_insert_ne by done. apply Hst.
Qed.

Lemma distinctKeys_removeRecords (tab : Z) st :
  distinctKeys st -> distinctKeys (removeRecords tab st).
Proof.
  intros Hst t l. simpl. intros Hl.
  apply lookup_delete_Some in Hl as [_ Hl]. by apply (Hst t).
Qed.

Lemma distinctKeys_resetRecords (details : Details) st :
  distinctKeys st -> distinctKeys (resetRecords details st).
Proof.
  intros Hst. unfold resetRecords.
  destruct (d_frameId details =? 0); [|done].
  destruct (records st !! d_tabId details) as [recs|] eqn:Hrecs; [|done].
  destruct (last _) as [newest|].
  - intros t l. simpl.
    destruct (decide (t = d_tabId details)) as [->|Hne].
    + rewrite lookup_insert_eq. intros [= <-].
      eapply sublist_NoDup; [by apply (Hst (d_tabId details) recs)|].
      apply (fmap_sublist recordKey), keptChain_sublist.
    + rewrite lookup_insert_ne by done. apply Hst.
  - intros t l. simpl. intros Hl.
    apply lookup_delete_Some in Hl as [_ Hl]. by apply (Hst t).
Qed.

(** C7, as the code has it. The store does not look for repeated records:
    a run of [addRecord], [resetRecords] and [removeRecords] from the
    empty store leaves no tab with two records of the same
    [(url, target, timestamp)] provided every record that is added has a
    triple that its tab does not hold at that moment. *)
Theorem distinctKeys_fresh_appends (c : Controller) (ops : list (StoreOp Rule)) :
  freshAppends ops (initial c) = true ->
  distinctKeys (applyOps ops (initial c)).
Proof.
  generalize (distinctKeys_initial c). generalize (@initial Rule _ c).
  induction ops as [|op ops IH]; intros st Hst Hfresh; simpl; [done|].
  simpl in Hfresh. apply andb_prop in Hfresh as [Hop Hfresh].
  apply IH; [|done].
  destruct op as [r|details|tab]; simpl.
  - by apply distinctKeys_addRecord.
  - by apply distinctKeys_resetRecords.
  - by apply distinctKeys_removeRecords.
Qed.

End Store.

Section Registry.

Context {Rule RuleData Pattern Controller : Type}.
Context {api : RuleApi Rule RuleData Pattern}.
Context {control : ControllerApi Rule Controller}.
Context {webRequest : WebRequest Rule}.
Implicit Types (st : State Rule Controller) (hooks : list (Hook Rule))
  (h : Hook Rule) (l : RuleListener Rule) (data : RuleData).

(** ** Hooks *)

Lemma hookListeners_app hooks1 hooks2 :
  hookListeners (hooks1 ++ hooks2) = hookListeners hooks1 ++ hookListeners hooks2.
Proof. unfold hookListeners. apply flat_map_app. Qed.

Lemma controlHooks_app hooks1 hooks2 :
  controlHooks (hooks1 ++ hooks2) = controlHooks hooks1 ++ controlHooks hooks2.
Proof. unfold controlHooks. apply List.filter_app. Qed.

Lemma ruleHooks_app hooks1 hooks2 :
  ruleHooks (hooks1 ++ hooks2) = ruleHooks hooks1 ++ ruleHooks hooks2.
Proof. unfold ruleHooks. apply List.filter_app. Qed.

(** A list of hooks of rules. *)
Lemma ruleHooks_only hooks :
  forallb isRuleHook hooks = true ->
  ruleHooks hooks = hooks /\ controlHooks hooks = [].
Proof.
  induction hooks as [|h hooks IH]; simpl; [done|].
  intros [Hh Hall]%andb_prop. destruct (IH Hall) as [IH1 IH2].
  rewrite Hh. simpl. by rewrite IH1, IH2.
Qed.

(** A new arrow function is not registered yet, so [addListener] adds it. *)
Lemma addListener_new l (f : Filter) (extra : list string) hooks :
  (forall l0, In l0 (hookListeners hooks) -> lid l0 <> lid l) ->
  addListener (RuleL l) f extra hooks = hooks ++ [mkHook (RuleL l) f extra].
Proof.
  intros Hnew. unfold addListener.
  assert (Hno : existsb (fun h => same_listener (RuleL l) (h_listener h)) hooks
                = false).
  { induction hooks as [|h hooks IH]; [done|]. cbn [existsb].
    rewrite IH.
    - destruct (h_listener h) as [l0|] eqn:Hl; [|done]. simpl.
      rewrite orb_false_r. apply Nat.eqb_neq. intros Heq.
      apply (Hnew l0); [|done]. unfold hookListeners. simpl. rewrite Hl. by left.
    - intros l0 Hin. apply Hnew. unfold hookListeners in *. simpl.
      apply in_or_app. by right. }
  by rewrite Hno.
Qed.

(** [requestControlListener] is registered once at most. *)
Lemma addListener_control (f : Filter) (extra : list string) hooks :
  addListener ControlL f extra hooks =
    if existsb (fun h => negb (isRuleHook h)) hooks
    then hooks
    else hooks ++ [mkHook ControlL f extra].
Proof.
  unfold addListener.
  assert (Hsame : existsb (fun h => same_listener ControlL (h_listener h)) hooks
                  = existsb (fun h => negb (isRuleHook h)) hooks).
  { induction hooks as [|h hooks IH]; [done|]. cbn [existsb]. rewrite IH.
    unfold isRuleHook. by destruct (h_listener h). }
  by rewrite Hsame.
Qed.

Lemma controlHooks_none hooks :
  existsb (fun h => negb (isRuleHook h)) hooks = false <-> controlHooks hooks = [].
Proof.
  induction hooks as [|h hooks IH]; simpl; [done|].
  destruct (isRuleHook h); simpl; [done|]. split; discriminate.
Qed.

(** ** One rule *)

Lemma installRule_inactive data st :
  active data = false -> installRule data st = st.
Proof. intros H. unfold installRule. by rewrite H. Qed.

Lemma installRule_rejected data st :
  active data = true -> installs data = false ->
  installRule data st = call (Error None "error_invalid_rule") st.
Proof.
  intros Ha Hc. unfold installRule, installs in *. rewrite Ha.
  destruct (createRule data); [|done].
  destruct (createMatchPatterns (pattern data)); [|done].
  by rewrite Hc.
Qed.

Lemma installRule_installed data st :
  active data = true -> installs data = true -> fresh st ->
  exists h,
    isRuleHook h = true /\
    hookSource h = ruleSource data /\
    map lid (hookListeners [h]) = [functions st] /\
    installRule data st =
      mkState (records st) (requestListeners st ++ hookListeners [h])
        (controller st) (notifier st)
        (set_onBeforeRequest (onBeforeRequest (browser st) ++ [h]) (browser st))
        (S (functions st)).
Proof.
  intros Ha Hc Hfresh. unfold installRule, installs, ruleSource in *. rewrite Ha.
  destruct (createRule data) as [rule|]; [|done].
  destruct (createMatchPatterns (pattern data)) as [patterns|]; [|done].
  rewrite Hc.
  exists (mkHook (RuleL (mkRuleListener (functions st) rule))
            (mkFilter patterns (data_types data)) []).
  repeat split; auto.
  rewrite addListener_new; [done|].
  intros l0 Hin. apply Hfresh in Hin. simpl. lia.
Qed.

(** ** The loop over the rules *)

Lemma fresh_call (c : NotifierCall Rule) st : fresh st -> fresh (call c st).
Proof. done. Qed.

(** The [for] loop of [addRuleListeners], from a state in which the next
    arrow function is new: the hooks [new] of the active rules that
    compile are registered after the hooks that were there, their
    listeners are pushed on [requestListeners], and the notifier gets one
    [error] for each active rule that does not compile. *)
Lemma installRules_spec (rules : list RuleData) st :
  fresh st ->
  exists new,
    fold_left (fun st data => installRule data st) rules st =
      mkState (records st) (requestListeners st ++ hookListeners new)
        (controller st)
        (notifier st ++
           map (fun _ => Error None "error_invalid_rule") (rejected rules))
        (set_onBeforeRequest (onBeforeRequest (browser st) ++ new) (browser st))
        (functions st + length new) /\
    forallb isRuleHook new = true /\
    map hookSource new = map ruleSource (installable rules) /\
    map lid (hookListeners new) = seq (functions st) (length new).
Proof.
  revert st. induction rules as [|data rules IH]; intros st Hfresh.
  - exists []. simpl. repeat split; auto.
    destruct st as [m rl c n b f], b. unfold set_onBeforeRequest. simpl.
    rewrite !app_nil_r. f_equal. lia.
  - cbn [fold_left].
    destruct (active data) eqn:Ha; [destruct (installs data) eqn:Hc|].
    + destruct (installRule_installed data st Ha Hc Hfresh)
        as (h & Hh & Hsrc & Hlid & ->).
      destruct h as [[l0|] hf he]; [|done].
      unfold hookListeners in Hlid. simpl in Hlid. injection Hlid as Hlid.
      match goal with |- context [fold_left _ rules ?s] => set (st1 := s) end.
      assert (Hfresh1 : fresh st1).
      { intros l. subst st1. simpl. rewrite hookListeners_app.
        intros [Hin|Hin]%in_app_or.
        - apply Hfresh in Hin. lia.
        - destruct Hin as [<-|[]]. lia. }
      destruct (IH st1 Hfresh1) as (new & -> & Hall & Hmap & Hseq).
      exists (mkHook (RuleL l0) hf he :: new). subst st1. simpl.
      unfold installable, rejected in *. simpl. rewrite Ha, Hc. simpl.
      split; [|split; [|split]].
      * rewrite <- !app_assoc. simpl.
        destruct (browser st). unfold set_onBeforeRequest. simpl.
        f_equal. lia.
      * done.
      * by rewrite Hsrc, Hmap.
      * by rewrite Hlid, Hseq.
    + rewrite (installRule_rejected data st Ha Hc).
      destruct (IH (call (Error None "error_invalid_rule") st)
                  (fresh_call _ st Hfresh)) as (new & -> & Hall & Hmap & Hseq).
      exists new. simpl. split; [|split; [|split]]; auto.
      * unfold rejected. simpl. rewrite Ha, Hc. simpl.
        by rewrite <- app_assoc.
      * unfold installable. simpl. by rewrite Ha, Hc.
    + rewrite (installRule_inactive data st Ha).
      destruct (IH st Hfresh) as (new & -> & Hall & Hmap & Hseq).
      exists new. split; [|split; [|split]]; auto.
      * unfold rejected. simpl. by rewrite Ha.
      * unfold installable. simpl. by rewrite Ha.
Qed.

(** ** The registry is in order in every state *)

Lemma registry_ok_ext st st' :
  registry st = registry st' -> registry_ok st -> registry_ok st'.
Proof.
  unfold registry, registry_ok, tracked, fresh, oneControl.
  intros [= <- <- <-]. done.
Qed.

Lemma registry_removeRecords (tab : Z) st :
  registry (removeRecords tab st) = registry st.
Proof. done. Qed.

Lemma registry_resetRecords (details : Details) st :
  registry (resetRecords details st) = registry st.
Proof.
  unfold resetRecords. destruct (d_frameId details =? 0); [|done].
  destruct (records st !! d_tabId details); [|done].
  by destruct (last _).
Qed.

Lemma registry_onResolved (request : Request Rule) (updateTab : bool) st :
  registry (onResolved request updateTab st) = registry st.
Proof. unfold onResolved. simpl. by destruct updateTab. Qed.

Lemma registry_requestControlListener (request : Request Rule) st :
  registry (requestControlListener request st) = registry st.
Proof.
  unfold requestControlListener.
  destruct (resolve (controller st) request) as [c calls].
  change (registry st) with (registry (set_controller c st)).
  generalize (set_controller c st). clear.
  induction calls as [|[rq up] calls IH]; intros st; simpl; [done|].
  by rewrite IH, registry_onResolved.
Qed.

Lemma registry_runListener (lst : Listener Rule) (request : Request Rule) st :
  registry (runListener lst request st) = registry st.
Proof.
  destruct lst as [l|]; simpl; [done|]. apply registry_requestControlListener.
Qed.

Lemma registry_fireBeforeRequest (request : Request Rule) st :
  registry (fireBeforeRequest request st) = registry st.
Proof.
  unfold fireBeforeRequest. generalize (onBeforeRequest (browser st)).
  intros hooks. revert st.
  induction hooks as [|h hooks IH]; intros st; simpl; [done|].
  rewrite IH. destruct (filter_matches (h_filter h) request); [|done].
  apply registry_runListener.
Qed.

(** What [initOnChange] leaves registered. *)
Lemma removeListeners_In (ls : list (RuleListener Rule)) hooks h :
  In h (fold_left (fun hooks l => removeListener (RuleL l) hooks) ls hooks) ->
  In h hooks /\
  forall l, In l ls -> same_listener (RuleL l) (h_listener h) = false.
Proof.
  revert hooks. induction ls as [|l0 ls IH]; intros hooks; simpl.
  - intros Hin. split; [done|]. by intros l [].
  - intros Hin. apply IH in Hin as [Hin Hls].
    unfold removeListener in Hin. apply filter_In in Hin as [Hin Hl0].
    split; [done|]. intros l [<-|Hl]; [|by apply Hls].
    by apply negb_true_iff.
Qed.

(** After [initOnChange] nothing is registered on
    [webRequest.onBeforeRequest]. *)
Lemma initOnChange_no_hooks st :
  tracked st -> onBeforeRequest (browser (initOnChange st)) = [].
Proof.
  intros Htracked. unfold initOnChange. simpl.
  match goal with |- ?hooks' = [] => destruct hooks' as [|h rest] eqn:E end;
    [done|exfalso].
  assert (Hin : In h (h :: rest)) by by left.
  rewrite <- E in Hin. unfold removeListener at 1 in Hin.
  apply filter_In in Hin as [Hin Hc].
  apply removeListeners_In in Hin as [Hin Hls].
  destruct (h_listener h) as [l|] eqn:Hl; [|done].
  destruct (Htracked l) as (l' & Hl' & Hid).
  { unfold hookListeners. apply in_flat_map. exists h. split; [done|].
    rewrite Hl. by left. }
  specialize (Hls l'). rewrite <- in_rev in Hls. specialize (Hls Hl').
  simpl in Hls. apply Nat.eqb_neq in Hls. done.
Qed.

Lemma registry_ok_no_hooks st :
  onBeforeRequest (browser st) = [] -> registry_ok st.
Proof.
  intros H. unfold registry_ok, tracked, fresh, oneControl. rewrite H. simpl.
  split; [by intros l []|]. split; [by intros l []|by left].
Qed.

Lemma registry_ok_initOnChange st : registry_ok st -> registry_ok (initOnChange st).
Proof.
  intros (Htracked & _). by apply registry_ok_no_hooks, initOnChange_no_hooks.
Qed.

(** ** [addRuleListeners] *)

Lemma addRuleListeners_spec (rules : list RuleData) st :
  fresh st ->
  exists new,
    addRuleListeners (Some rules) st =
      mkState (records st) (requestListeners st ++ hookListeners new)
        (controller st)
        (notifier st ++
           map (fun _ => Error None "error_invalid_rule") (rejected rules))
        (set_onBeforeRequest
           (if existsb (fun h => negb (isRuleHook h)) (onBeforeRequest (browser st))
            then onBeforeRequest (browser st) ++ new
            else (onBeforeRequest (browser st) ++ new) ++ [controlHook])
           (browser st))
        (functions st + length new) /\
    forallb isRuleHook new = true /\
    map hookSource new = map ruleSource (installable rules) /\
    map lid (hookListeners new) = seq (functions st) (length new).
Proof.
  intros Hfresh.
  destruct (installRules_spec rules st Hfresh) as (new & Hfold & Hall & Hmap & Hseq).
  exists new. split; [|done].
  unfold addRuleListeners. rewrite Hfold. simpl.
  rewrite addListener_control, existsb_app.
  assert (Hnew : existsb (fun h => negb (isRuleHook h)) new = false).
  { apply controlHooks_none. by apply ruleHooks_only. }
  rewrite Hnew, orb_false_r. unfold set_browser. simpl.
  destruct (browser st). unfold set_onBeforeRequest. simpl.
  by destruct (existsb _ _).
Qed.

Lemma registry_ok_addRuleListeners (rules : option (list RuleData)) st :
  registry_ok st -> registry_ok (addRuleListeners rules st).
Proof.
  intros (Htracked & Hfresh & Hone).
  destruct rules as [rules|]; [|done].
  destruct (addRuleListeners_spec rules st Hfresh)
    as (new & -> & Hall & _ & Hseq).
  destruct (ruleHooks_only new Hall) as [_ Hnoc].
  assert (Hls : hookListeners
            (if existsb (fun h => negb (isRuleHook h)) (onBeforeRequest (browser st))
             then onBeforeRequest (browser st) ++ new
             else (onBeforeRequest (browser st) ++ new) ++ [controlHook])
          = hookListeners (onBeforeRequest (browser st)) ++ hookListeners new).
  { destruct (existsb _ _); rewrite !hookListeners_app; [done|].
    unfold hookListeners at 3. simpl. by rewrite app_nil_r. }
  unfold registry_ok, tracked, fresh, oneControl. simpl. rewrite Hls.
  split; [|split].
  - intros l [Hin|Hin]%in_app_or.
    + destruct (Htracked l Hin) as (l' & Hl' & Hid).
      exists l'. split; [|done]. apply in_or_app. by left.
    + exists l. split; [|done]. apply in_or_app. by right.
  - intros l [Hin|Hin]%in_app_or.
    + apply Hfresh in Hin. lia.
    + apply (in_map lid) in Hin. rewrite Hseq in Hin.
      apply in_seq in Hin. lia.
  - destruct (existsb _ _) eqn:Hex.
    + rewrite controlHooks_app, Hnoc, app_nil_r. done.
    + apply controlHooks_none in Hex.
      rewrite !controlHooks_app, Hnoc, Hex. by right.
Qed.

(** ** [init] and the events *)

Lemma registry_ok_init (options : Options RuleData) st :
  registry_ok st -> registry_ok (init options st).
Proof.
  intros Hok. unfold init. destruct (disabled options).
  - eapply registry_ok_ext; [|exact Hok]. done.
  - eapply registry_ok_ext;
      [|exact (registry_ok_addRuleListeners (rules options) (call EnabledState st) Hok)].
    done.
Qed.

Lemma registry_ok_handle (e : Event Rule RuleData) st :
  registry_ok st -> registry_ok (handle e st).
Proof.
  intros Hok. destruct e as [options| |request|details|tab]; simpl.
  - by apply registry_ok_init.
  - by apply registry_ok_initOnChange.
  - eapply registry_ok_ext; [|exact Hok].
    symmetry. apply registry_fireBeforeRequest.
  - destruct (webNavigation_onCommitted (browser st)); [|done].
    eapply registry_ok_ext; [|exact Hok].
    symmetry. apply registry_resetRecords.
  - destruct (tabs_onRemoved (browser st)); [|done].
    eapply registry_ok_ext; [|exact Hok]. done.
Qed.

Lemma reachable_registry_ok (c : Controller) st :
  reachable c st -> registry_ok st.
Proof.
  induction 1 as [|st e _ IH].
  - by apply registry_ok_no_hooks.
  - by apply registry_ok_handle.
Qed.

(** C5, as the code has it. [addRuleListeners] on a list of rules, in any
    state the script can be in: the notifier gets one [error] for each
    active rule for which something in the [try] block throws
    ([createRule], [createMatchPatterns], or [addListener] on a filter
    that the browser refuses) and nothing else; the hooks of rules that
    are added are, in order, those of the other active rules, each with
    the compiled rule, the match patterns and the types of its rule, so
    their number is the number of these rules; after the call
    [requestControlListener] is registered exactly once, with the filter
    for every URL and ["blocking"], and when it was not registered
    before, it is registered after the hooks of the rules. *)
Theorem addRuleListeners_installs (c : Controller) st (rules : list RuleData) :
  reachable c st ->
  let st' := addRuleListeners (Some rules) st in
  let hooks := onBeforeRequest (browser st) in
  let hooks' := onBeforeRequest (browser st') in
  notifier st' =
    notifier st ++ map (fun _ => Error None "error_invalid_rule") (rejected rules) /\
  (exists new,
     ruleHooks hooks' = ruleHooks hooks ++ new /\
     map hookSource new = map ruleSource (installable rules)) /\
  length (ruleHooks hooks') =
    (length (ruleHooks hooks) + length (installable rules))%nat /\
  controlHooks hooks' = [controlHook] /\
  (controlHooks hooks = [] ->
   exists new, hooks' = hooks ++ new ++ [controlHook] /\ ruleHooks new = new).
Proof.
  intros Hreach. cbv zeta.
  destruct (reachable_registry_ok c st Hreach) as (_ & Hfresh & Hone).
  destruct (addRuleListeners_spec rules st Hfresh)
    as (new & -> & Hall & Hmap & _).
  destruct (ruleHooks_only new Hall) as [Hr Hc].
  simpl. split; [done|].
  assert (Hrule : ruleHooks
            (if existsb (fun h => negb (isRuleHook h)) (onBeforeRequest (browser st))
             then onBeforeRequest (browser st) ++ new
             else (onBeforeRequest (browser st) ++ new) ++ [controlHook])
          = ruleHooks (onBeforeRequest (browser st)) ++ new).
  { destruct (existsb _ _); rewrite !ruleHooks_app, Hr; [done|].
    simpl. by rewrite app_nil_r. }
  split; [by exists new|]. split.
  { rewrite Hrule, length_app. f_equal.
    rewrite <- (length_map hookSource), Hmap. apply length_map. }
  destruct (existsb _ _) eqn:Hex.
  - assert (Hsome : controlHooks (onBeforeRequest (browser st)) <> []).
    { intros Hnil. apply controlHooks_none in Hnil. congruence. }
    split; [|done].
    rewrite controlHooks_app, Hc, app_nil_r. by destruct Hone.
  - apply controlHooks_none in Hex. split.
    + by rewrite !controlHooks_app, Hc, Hex.
    + intros _. exists new. by rewrite <- app_assoc.
Qed.


(** Between an [initOnChange] and an [init], events that run no [init]
    leave [webRequest.onBeforeRequest] and [requestListeners] empty. *)
Lemma quiet_handle (e : Event Rule RuleData) st :
  noLoad [e] = true ->
  onBeforeRequest (browser st) = [] /\ requestListeners st = [] ->
  onBeforeRequest (browser (handle e st)) = [] /\
  requestListeners (handle e st) = [].
Proof.
  intros Hquiet [Hhooks Hlisteners].
  assert (Hsame : forall st', registry st' = registry st ->
            onBeforeRequest (browser st') = [] /\ requestListeners st' = []).
  { intros st'. unfold registry. rewrite Hhooks, Hlisteners.
    by intros [= -> -> _]. }
  destruct e as [options| |request|details|tab]; simpl; [done| | | |].
  - unfold initOnChange. simpl. by rewrite Hhooks, Hlisteners.
  - apply Hsame, registry_fireBeforeRequest.
  - destruct (webNavigation_onCommitted (browser st)); [|done].
    apply Hsame, registry_resetRecords.
  - by destruct (tabs_onRemoved (browser st)).
Qed.

Lemma quiet_run (es : list (Event Rule RuleData)) st :
  noLoad es = true ->
  onBeforeRequest (browser st) = [] /\ requestListeners st = [] ->
  onBeforeRequest (browser (run es st)) = [] /\ requestListeners (run es st) = [].
Proof.
  revert st. induction es as [|e es IH]; intros st Hquiet Hst; [done|].
  simpl in Hquiet. apply andb_prop in Hquiet as [He Hes].
  apply (IH (handle e st) Hes). apply quiet_handle; [|done].
  simpl. by rewrite He.
Qed.

Lemma quiet_after_initOnChange (c : Controller) st
    (es : list (Event Rule RuleData)) :
  reachable c st ->
  noLoad es = true ->
  onBeforeRequest (browser (run es (initOnChange st))) = [] /\
  requestListeners (run es (initOnChange st)) = [].
Proof.
  intros Hreach Hquiet.
  destruct (reachable_registry_ok c st Hreach) as (Htracked & _).
  apply quiet_run; [done|]. split; [by apply initOnChange_no_hooks|done].
Qed.


(** C9. Without a [rules] property in the stored options
    [addRuleListeners] returns at once and changes nothing.  With
    [disabled] not set, after a change of the options in any state the
    script can be in, and after the [init] at load, [enabledState] was
    the last call on the notifier, nothing is registered on
    [webRequest.onBeforeRequest], not [requestControlListener] either,
    and a request calls no listener: it leaves the state as it is. *)
Theorem addRuleListeners_without_rules (c : Controller) st
    (options : Options RuleData) :
  reachable c st ->
  disabled options = false ->
  rules options = None ->
  addRuleListeners None st = st /\
  (let st' := reload options st in
   onBeforeRequest (browser st') = [] /\
   notifier st' = notifier st ++ [EnabledState] /\
   forall request, fireBeforeRequest request st' = st') /\
  (let st' := init options (initial c) in
   onBeforeRequest (browser st') = [] /\
   notifier st' = [EnabledState] /\
   forall request, fireBeforeRequest request st' = st').
Proof.
  intros Hreach Hdis Hrules.
  destruct (reachable_registry_ok c st Hreach) as (Htracked & _).
  pose proof (initOnChange_no_hooks st Htracked) as Hnone.
  split; [done|].
  unfold reload, init. rewrite Hdis, Hrules. cbv zeta.
  unfold fireBeforeRequest. simpl in *. rewrite Hnone. done.
Qed.

End Registry.

(** * The theorems on the small instance *)

(** C1. Six records in tab 1 and a top-level commit, without a server
    redirect, to a URL that is the target of none of them.  The first loop
    pops the five newest records and keeps none; the second loop goes on
    from the fifth, to which the oldest record leads, and keeps the oldest
    record.  The sequence is replaced, not deleted, and the notifier gets
    [notify] with the count 1, not [clear]. *)
Theorem resetRecords_no_anchor_keeps :
  let st' := resetRecords (commit "z" false) (tabOne sixRecords) in
  forallb (fun r => negb (anchors "z" false r)) sixRecords = true /\
  keep (findAnchor 5 "z" false (mkScan sixRecords [] None)) = [] /\
  records st' !! 1 = Some [hop "x" "e" 1] /\
  notifier st' = [Notify 1 (Some "rule") 1].
Proof. vm_compute. repeat split; reflexivity. Qed.

(** C2 on the records [A -> B] and [B -> C] of tab 1. *)
Lemma resetRecords_keeps_chain_witness :
  truthy (Some "B") = true /\
  let st := tabOne [hop "A" "B" 1; hop "B" "C" 2] in
  records (resetRecords (commit "C" false) st) !! 1 =
    Some [hop "A" "B" 1; hop "B" "C" 2] /\
  notifier (resetRecords (commit "C" false) st) = [Notify 1 (Some "rule") 2].
Proof.
  split; [reflexivity|].
  apply (resetRecords_keeps_chain (tabOne [hop "A" "B" 1; hop "B" "C" 2]) 1
           "A" "B" "C" "main_frame" "main_frame" 1 2 (Some "rule") (Some "rule") []);
    reflexivity.
Defined.

(** C3 on [tenRecords] and a commit to [z] that is a server redirect. *)
Lemma resetRecords_scans_five_witness :
  strict_eq (target (hop "g" "z" 4)) "z" = true /\
  ~ In (hop "g" "z" 4) (keep (findAnchor 5 "z" true (mkScan tenRecords [] None))).
Proof.
  split; [reflexivity|].
  destruct (resetRecords_scans_five "z" true tenRecords) as (_ & _ & H).
  apply (H [plain "j" 1; plain "i" 2; plain "h" 3] (hop "g" "z" 4)
           [plain "f" 5; hop "e" "y" 6; plain "d" 7; plain "c" 8; plain "b" 9;
            plain "a" 10]); reflexivity.
Defined.

(** C4 on the record [A -> B] of tab 1 and a commit to [C]. *)
Lemma resetRecords_server_redirect_witness :
  strict_eq (Some "B") "C" = false /\
  let st := tabOne [hop "A" "B" 1] in
  records (resetRecords (commit "C" true) st) !! 1 = Some [hop "A" "B" 1] /\
  notifier (resetRecords (commit "C" true) st) = [Notify 1 (Some "rule") 1].
Proof.
  split; [reflexivity|].
  destruct (resetRecords_server_redirect (tabOne [hop "A" "B" 1]) 1 "A" "B" "C"
              "main_frame" 1 (Some "rule") ["server_redirect"])
    as (_ & _ & Hrecords & Hnotify); try reflexivity.
  split; [exact Hrecords|exact Hnotify].
Defined.

(** C5, as the claim has it, fails: rule [r6] is active and compiles, but
    the browser refuses its filter, [addListener] throws inside the [try]
    block and the rule gets no hook.  Three active rules compile, two
    hooks of rules are registered, and the notifier gets three errors,
    one of them for a rule that compiles. *)
Lemma addRuleListeners_refused_filter :
  let st' := addRuleListeners (Some exampleRules) exampleState in
  map s_uuid (compiling exampleRules) = ["r1"; "r4"; "r6"] /\
  map hookSource (ruleHooks (onBeforeRequest (browser st'))) =
    [(Some "r1", Some ["http://a/*"], None);
     (Some "r4", Some ["http://d/*"], Some ["image"])] /\
  length (ruleHooks (onBeforeRequest (browser st'))) <>
    length (compiling exampleRules) /\
  notifier st' =
    [Error None "error_invalid_rule"; Error None "error_invalid_rule";
     Error None "error_invalid_rule"].
Proof.
  cbv zeta. split; [reflexivity|]. split; [reflexivity|].
  split; [|reflexivity]. vm_compute. discriminate.
Qed.

(** C5 on [exampleRules] when the script is loaded: two hooks of rules
    and three errors. *)
Lemma addRuleListeners_installs_witness :
  reachable (@None string) exampleState /\
  length (ruleHooks (onBeforeRequest
            (browser (addRuleListeners (Some exampleRules) exampleState)))) = 2%nat /\
  notifier (addRuleListeners (Some exampleRules) exampleState) =
    [Error None "error_invalid_rule"; Error None "error_invalid_rule";
     Error None "error_invalid_rule"].
Proof.
  split; [apply reachable_initial|].
  destruct (addRuleListeners_installs (@None string) exampleState exampleRules)
    as (Hnotifier & _ & Hlength & _); [apply reachable_initial|].
  split; [exact Hlength|exact Hnotifier].
Defined.

(** C6 on three records of tab 1. *)
Lemma addRecord_appends_witness :
  records exampleState !! 1 = None /\
  fst (addRecords [hop "A" "B" 1; hop "B" "C" 2; plain "C" 3] exampleState) =
    [1; 2; 3]%nat /\
  records (snd (addRecords [hop "A" "B" 1; hop "B" "C" 2; plain "C" 3] exampleState))
    !! 1 = Some [hop "A" "B" 1; hop "B" "C" 2; plain "C" 3].
Proof.
  split; [reflexivity|].
  destruct (addRecord_appends exampleState 1
              [hop "A" "B" 1; hop "B" "C" 2; plain "C" 3])
    as (Hreturned & _ & _ & Hsequence & _); try reflexivity.
  split; [exact Hreturned|]. apply Hsequence. discriminate.
Defined.

(** C7, as the claim has it, fails: the same record added twice is held
    twice. *)
Lemma distinctKeys_repeated_append :
  ~ distinctKeys (applyOps [Append (plain "u" 5); Append (plain "u" 5)] exampleState).
Proof.
  intros H. specialize (H 1 [plain "u" 5; plain "u" 5] eq_refl).
  simpl in H. apply NoDup_cons in H as [Hin _]. apply Hin. by left.
Qed.

(** Two requests with the same URL and time stamp, each marked by the
    hook of rule [r1] and resolved by [requestControlListener], are such
    a run. *)
Lemma repeated_request_recorded_twice :
  let st :=
    handle (BeforeRequest exampleRequest)
      (handle (BeforeRequest exampleRequest)
         (handle (StorageLoaded (mkOptions false (Some exampleRules)))
            exampleState)) in
  records st !! 1 =
    Some [mkRecord 1 "image" "http://a/*" None 5 (Some "r1");
          mkRecord 1 "image" "http://a/*" None 5 (Some "r1")].
Proof. reflexivity. Qed.

(** C7 on a run in which every added record is new to its tab. *)
Lemma distinctKeys_fresh_appends_witness :
  freshAppends
    [Append (hop "A" "B" 1); Append (hop "B" "C" 2);
     Reconcile (commit "C" false); Append (plain "u" 5); Remove 1]
    exampleState = true /\
  distinctKeys
    (applyOps
       [Append (hop "A" "B" 1); Append (hop "B" "C" 2);
        Reconcile (commit "C" false); Append (plain "u" 5); Remove 1]
       exampleState).
Proof.
  split; [reflexivity|].
  apply (distinctKeys_fresh_appends (Rule := string) (@None string)). reflexivity.
Defined.



(** C9 on options without rules. *)
Lemma addRuleListeners_without_rules_witness :
  reachable (@None string) exampleState /\
  rules (mkOptions (RuleData := StoredRule) false None) = None /\
  onBeforeRequest
    (browser (reload (mkOptions (RuleData := StoredRule) false None) exampleState))
    = [].
Proof.
  split; [apply reachable_initial|]. split; [reflexivity|].
  destruct (addRuleListeners_without_rules (@None string) exampleState
              (mkOptions (RuleData := StoredRule) false None))
    as (_ & (Hhooks & _) & _); [apply reachable_initial|reflexivity|reflexivity|].
  exact Hhooks.
Defined.

(** C10 on the records [A -> B] and [B -> C] of tab 1 and a commit to
    [C]. *)
Lemma resetRecords_keeps_at_most_six_witness :
  d_frameId (commit "C" false) = 0 /\
  records (resetRecords (commit "C" false) (tabOne [hop "A" "B" 1; hop "B" "C" 2]))
    !! 1 = Some [hop "A" "B" 1; hop "B" "C" 2] /\
  (length [hop "A" "B" 1; hop "B" "C" 2] <= 6)%nat.
Proof.
  split; [reflexivity|]. split; [reflexivity|].
  destruct (resetRecords_keeps_at_most_six
              (tabOne [hop "A" "B" 1; hop "B" "C" 2]) (commit "C" false)
              [hop "A" "B" 1; hop "B" "C" 2] [hop "A" "B" 1; hop "B" "C" 2])
    as (_ & _ & Hlength); try reflexivity.
  exact Hlength.
Defined.

(** * More on the reconciler *)

Section Chains.

Context {Rule : Type}.
Implicit Types (r x : RequestRecord Rule) (recs : list (RequestRecord Rule)).

Lemma chained_app_r (l1 l2 : list (RequestRecord Rule)) :
  chained (l1 ++ l2) -> chained l2.
Proof.
  induction l1 as [|a l1 IH]; [done|]. simpl.
  destruct (l1 ++ l2) as [|b rest] eqn:E.
  - intros _. apply IH. done.
  - intros [_ H]. by apply IH.
Qed.

(** The first loop, when one of the [n] newest records passes its test:
    the newest one that passes is pushed on [keep]. *)
Lemma findAnchor_found (n : nat) (durl : string) (sr : bool)
    (older newer k : list (RequestRecord Rule)) x (l : option (RequestRecord Rule)) :
  (length newer < n)%nat ->
  forallb (fun r => negb (anchors durl sr r)) newer = true ->
  anchors durl sr x = true ->
  findAnchor n durl sr (mkScan (older ++ x :: newer) k l)
  = mkScan older (k ++ [x]) (Some x).
Proof.
  revert n l. induction newer as [|y newer IH] using rev_ind; intros n l Hlen Hall Hx.
  - destruct n as [|n]; [simpl in Hlen; lia|]. simpl.
    rewrite pop_snoc. by rewrite Hx.
  - rewrite length_app in Hlen. simpl in Hlen.
    destruct n as [|n]; [lia|].
    rewrite forallb_app in Hall. apply andb_prop in Hall as [Hall Hy].
    simpl in Hy. rewrite andb_true_r in Hy. apply negb_true_iff in Hy.
    cbn [findAnchor tabRecords keep].
    replace (older ++ x :: newer ++ [y]) with ((older ++ x :: newer) ++ [y])
      by by rewrite <- app_assoc.
    rewrite pop_snoc, Hy. apply IH; [lia|done|done].
Qed.

(** The second loop keeps a chain a chain, as long as [lastRecord] is the
    first record of [keep] when [keep] is not empty. *)
Lemma walkChain_chained (n : nat) recs (k : list (RequestRecord Rule))
    (last : RequestRecord Rule) :
  chained k ->
  (k = [] \/ exists k', k = last :: k') ->
  chained (snd (walkChain n recs k last)).
Proof.
  revert recs k last. induction n as [|n IH]; intros recs k last Hk Hhead; simpl; [done|].
  destruct (pop recs) as [[r rest]|]; [|done].
  destruct (chains r last) eqn:Hr.
  - apply IH.
    + destruct Hhead as [->|[k' ->]]; [done|]. by split.
    + right. by exists k.
  - by apply IH.
Qed.

(** The second loop on a chain of at most [n] records that leads to
    [lastRecord]: all of it is kept. *)
Lemma walkChain_fixed (n : nat) (c k' : list (RequestRecord Rule))
    (last : RequestRecord Rule) :
  (length c <= n)%nat ->
  chained (c ++ last :: k') ->
  walkChain n c (last :: k') last = ([], c ++ last :: k').
Proof.
  revert n last k'. induction c as [|r c IH] using rev_ind; intros n last k' Hlen Hc.
  - by destruct n.
  - rewrite length_app in Hlen. simpl in Hlen.
    destruct n as [|n]; [lia|]. simpl. rewrite pop_snoc.
    rewrite <- app_assoc in Hc. simpl in Hc.
    pose proof (chained_app_r _ _ Hc) as [Hr _].
    rewrite Hr. rewrite IH; [|lia|done].
    by rewrite <- app_assoc.
Qed.

(** What is kept is a chain. *)
Lemma keptChain_chained (durl : string) (sr : bool) recs :
  chained (keptChain durl sr recs).
Proof.
  unfold keptChain, scanRecords.
  pose proof (findAnchor_spec 5 durl sr (mkScan recs [] None)) as H.
  cbv zeta in H. cbn [tabRecords keep lastRecord] in H.
  remember (findAnchor 5 durl sr (mkScan recs [] None)) as s.
  destruct H as (popped & _ & _ & [(Hk & _)|(x & rest & _ & _ & _ & Hk & Hl)]).
  - rewrite Hk. destruct (lastRecord s) as [last|]; [|done].
    apply walkChain_chained; [done|by left].
  - rewrite Hl, Hk. cbn [app]. apply walkChain_chained; [done|].
    right. by exists [].
Qed.

(** When one of the five newest records passes the test of the first
    loop, the newest one that passes, [x], ends what is kept; before it
    comes a chain of at most five records taken from those older than
    [x]. *)
Lemma keptChain_anchor (durl : string) (sr : bool)
    (older newer : list (RequestRecord Rule)) x :
  (length newer < 5)%nat ->
  forallb (fun r => negb (anchors durl sr r)) newer = true ->
  anchors durl sr x = true ->
  exists chain,
    keptChain durl sr (older ++ x :: newer) = chain ++ [x] /\
    chain `sublist_of` older /\
    (length chain <= 5)%nat.
Proof.
  intros Hlen Hall Hx.
  pose proof (keptChain_chained durl sr (older ++ x :: newer)) as Hchained.
  unfold keptChain, scanRecords in *.
  rewrite (findAnchor_found 5 durl sr older newer [] x None Hlen Hall Hx) in *.
  cbn [lastRecord tabRecords keep app] in *.
  destruct (walkChain_spec 5 older [x] x) as (popped & added & Ht & Hlp & Hk & Hsub).
  exists added. rewrite Hk. split; [done|]. split.
  - rewrite Ht. by apply sublist_inserts_l.
  - apply sublist_length in Hsub. lia.
Qed.

(** A chain of at most five records that ends in a record passing the
    test of the first loop is kept as it is. *)
Lemma keptChain_fixed (durl : string) (sr : bool)
    (chain : list (RequestRecord Rule)) x :
  (length chain <= 5)%nat ->
  chained (chain ++ [x]) ->
  anchors durl sr x = true ->
  keptChain durl sr (chain ++ [x]) = chain ++ [x].
Proof.
  intros Hlen Hc Hx. unfold keptChain, scanRecords.
  rewrite (findAnchor_found 5 durl sr chain [] [] x None); [|simpl; lia|done|done].
  cbn [lastRecord tabRecords keep app].
  by rewrite walkChain_fixed.
Qed.

(** X21. After the first loop [lastRecord] is [undefined] only if the
    array of the tab was empty, and then nothing is left for the second
    loop: its body, which reads [lastRecord.url], never runs with
    [lastRecord] undefined. *)
Theorem lastRecord_undefined_empty (durl : string) (sr : bool) recs :
  lastRecord (findAnchor 5 durl sr (mkScan recs [] None)) = None ->
  recs = [] /\ tabRecords (findAnchor 5 durl sr (mkScan recs [] None)) = [].
Proof.
  intros Hnone. split; [|by apply findAnchor_undefined].
  destruct (pop recs) as [[r rest]|] eqn:Hpop; [|by apply pop_None].
  exfalso. simpl in Hnone. rewrite Hpop in Hnone.
  destruct (anchors durl sr r); [done|].
  destruct (findAnchor_defined 4 durl sr (mkScan rest [] (Some r))) as [x Hx];
    [by eexists|].
  simpl in Hx. congruence.
Qed.

End Chains.

Section Commits.

Context {Rule Controller : Type}.
Implicit Types (st : State Rule Controller) (r x : RequestRecord Rule)
  (recs : list (RequestRecord Rule)).

(** X1. [removeRecords] for a tab that has no sequence changes
    nothing. *)
Theorem removeRecords_missing (tab : Z) st :
  records st !! tab = None ->
  removeRecords tab st = st.
Proof.
  intros Hnone. unfold removeRecords, set_records.
  rewrite delete_id by done. by destruct st.
Qed.

(** X2. [resetRecords] does nothing at all for a commit in a frame that
    is not the top-level one, and for a commit in a tab without records:
    the store stays as it is and the notifier is not called. *)
Theorem resetRecords_ignores (details : Details) st :
  Z.eqb (d_frameId details) 0 = false \/ records st !! d_tabId details = None ->
  resetRecords details st = st.
Proof.
  intros [Hframe|Hnone]; unfold resetRecords.
  - by rewrite Hframe.
  - rewrite Hnone. by destruct (d_frameId details =? 0).
Qed.

(** X3. [resetRecords] leaves the sequences of all other tabs, the
    controller, the browser and [requestListeners] as they are, and calls
    the notifier at most once, with [clear] or [notify] for the tab of
    the commit. *)
Theorem resetRecords_one_tab (details : Details) st :
  let st' := resetRecords details st in
  (forall other, other <> d_tabId details ->
     records st' !! other = records st !! other) /\
  controller st' = controller st /\
  browser st' = browser st /\
  requestListeners st' = requestListeners st /\
  (notifier st' = notifier st \/
   notifier st' = notifier st ++ [Clear (d_tabId details)] \/
   exists ru n, notifier st' = notifier st ++ [Notify (d_tabId details) ru n]).
Proof.
  cbv zeta. unfold resetRecords.
  destruct (d_frameId details =? 0); [|by repeat split; auto].
  destruct (records st !! d_tabId details) as [recs|]; [|by repeat split; auto].
  destruct (last _) as [newest|]; simpl.
  - split; [intros other Hne; by rewrite lookup_insert_ne|].
    repeat split; auto. right. right. by eexists _, _.
  - split; [intros other Hne; by rewrite lookup_delete_ne|].
    repeat split; auto.
Qed.

(** X4. After a top-level commit the sequence of the tab, if there is
    one, is made of records among the ten newest of the old sequence, in
    their old order: [resetRecords] adds no record, moves none, and drops
    every record older than the ten newest. *)
Theorem resetRecords_subsequence (details : Details) st recs
    (kept : list (RequestRecord Rule)) :
  d_frameId details = 0 ->
  records st !! d_tabId details = Some recs ->
  records (resetRecords details st) !! d_tabId details = Some kept ->
  kept `sublist_of` drop (length recs - 10) recs.
Proof.
  intros Hframe Hrecs Hkept.
  rewrite (resetRecords_top st details recs Hframe Hrecs) in Hkept. cbv zeta in Hkept.
  destruct (last _) as [newest|]; simpl in Hkept;
    [|by rewrite lookup_delete_eq in Hkept].
  rewrite lookup_insert_eq in Hkept. injection Hkept as <-.
  destruct (keptChain_spec (d_url details)
              (includes (d_transitionQualifiers details) "server_redirect") recs)
    as (untouched & popped & Hsplit & Hlen & Hsub & _).
  rewrite Hsplit at 2 3. rewrite length_app, drop_app_le by lia.
  by apply sublist_inserts_l.
Qed.

(** X5. After a top-level commit the sequence of the tab, if there is
    one, is a chain: every record in it has a target that JavaScript
    takes for true and that is the URL of the next record. *)
Theorem resetRecords_chained (details : Details) st recs
    (kept : list (RequestRecord Rule)) :
  d_frameId details = 0 ->
  records st !! d_tabId details = Some recs ->
  records (resetRecords details st) !! d_tabId details = Some kept ->
  chained kept.
Proof.
  intros Hframe Hrecs Hkept.
  rewrite (resetRecords_top st details recs Hframe Hrecs) in Hkept. cbv zeta in Hkept.
  destruct (last _) as [newest|]; simpl in Hkept.
  - rewrite lookup_insert_eq in Hkept. injection Hkept as <-.
    apply keptChain_chained.
  - by rewrite lookup_delete_eq in Hkept.
Qed.

(** X6. When one of the five newest records of the tab passes the test of
    the first loop, the newest one that passes is the last record of the
    new sequence, the records before it are taken from the records older
    than it, and [notify] gets its rule and the length of the new
    sequence. *)
Theorem resetRecords_anchor_last (details : Details) st
    (older newer : list (RequestRecord Rule)) x :
  let sr := includes (d_transitionQualifiers details) "server_redirect" in
  d_frameId details = 0 ->
  records st !! d_tabId details = Some (older ++ x :: newer) ->
  (length newer < 5)%nat ->
  forallb (fun r => negb (anchors (d_url details) sr r)) newer = true ->
  anchors (d_url details) sr x = true ->
  exists chain,
    chain `sublist_of` older /\
    records (resetRecords details st) !! d_tabId details = Some (chain ++ [x]) /\
    notifier (resetRecords details st) =
      notifier st ++ [Notify (d_tabId details) (rule x) (length (chain ++ [x]))].
Proof.
  intros sr Hframe Hrecs Hlen Hall Hx.
  destruct (keptChain_anchor (d_url details) sr older newer x Hlen Hall Hx)
    as (chain & Hkept & Hsub & _).
  exists chain. split; [done|].
  rewrite (resetRecords_top st details _ Hframe Hrecs). cbv zeta.
  fold sr. rewrite Hkept, last_snoc. simpl.
  by rewrite lookup_insert_eq.
Qed.

(** X7. Under the same condition a second [resetRecords] for the same
    commit leaves the store as the first one left it and repeats the call
    on the notifier. *)
Theorem resetRecords_twice (details : Details) st
    (older newer : list (RequestRecord Rule)) x :
  let sr := includes (d_transitionQualifiers details) "server_redirect" in
  d_frameId details = 0 ->
  records st !! d_tabId details = Some (older ++ x :: newer) ->
  (length newer < 5)%nat ->
  forallb (fun r => negb (anchors (d_url details) sr r)) newer = true ->
  anchors (d_url details) sr x = true ->
  let st1 := resetRecords details st in
  records (resetRecords details st1) = records st1 /\
  exists c,
    notifier st1 = notifier st ++ [c] /\
    notifier (resetRecords details st1) = notifier st1 ++ [c].
Proof.
  intros sr Hframe Hrecs Hlen Hall Hx. cbv zeta.
  destruct (keptChain_anchor (d_url details) sr older newer x Hlen Hall Hx)
    as (chain & Hkept & _ & Hlc).
  pose proof (keptChain_chained (d_url details) sr (older ++ x :: newer)) as Hc.
  rewrite Hkept in Hc.
  rewrite (resetRecords_top st details _ Hframe Hrecs). cbv zeta.
  fold sr. rewrite Hkept, last_snoc.
  match goal with |- context [resetRecords details ?s] => set (st1 := s) end.
  assert (Hrecs1 : records st1 !! d_tabId details = Some (chain ++ [x])).
  { subst st1. simpl. by rewrite lookup_insert_eq. }
  rewrite (resetRecords_top st1 details _ Hframe Hrecs1). cbv zeta.
  fold sr. rewrite (keptChain_fixed (d_url details) sr chain x Hlc Hc Hx), last_snoc.
  subst st1. simpl. split.
  - by rewrite insert_insert_eq.
  - by eexists.
Qed.

End Commits.

(** * More on the registry and the dispatcher *)

Section Lifecycle.

Context {Rule RuleData Pattern Controller : Type}.
Context {api : RuleApi Rule RuleData Pattern}.
Context {control : ControllerApi Rule Controller}.
Context {webRequest : WebRequest Rule}.
Implicit Types (st : State Rule Controller) (hooks : list (Hook Rule))
  (h : Hook Rule) (l : RuleListener Rule) (data : RuleData).

(** ** What [addRuleListeners] leaves alone *)

Lemma sameButRegistry_refl st : sameButRegistry st st.
Proof. by repeat split. Qed.

Lemma sameButRegistry_trans st1 st2 st3 :
  sameButRegistry st1 st2 -> sameButRegistry st2 st3 -> sameButRegistry st1 st3.
Proof.
  intros (H1 & H2 & H3 & H4 & H5 & H6 & H7 & H8) (K1 & K2 & K3 & K4 & K5 & K6 & K7 & K8).
  repeat split; try congruence. by etrans.
Qed.

Lemma installRule_same data st : sameButRegistry st (installRule data st).
Proof.
  unfold installRule. destruct (active data); [|apply sameButRegistry_refl].
  destruct (createRule data) as [rule|].
  - destruct (createMatchPatterns (pattern data)) as [patterns|].
    + destruct (filter_accepted _); [by repeat split|].
      repeat split; auto. simpl. by apply prefix_app_r.
    + repeat split; auto. simpl. by apply prefix_app_r.
  - repeat split; auto. simpl. by apply prefix_app_r.
Qed.

Lemma addRuleListeners_same (rules : option (list RuleData)) st :
  sameButRegistry st (addRuleListeners rules st).
Proof.
  destruct rules as [rules|]; [|apply sameButRegistry_refl]. unfold addRuleListeners.
  assert (Hfold : sameButRegistry st
            (fold_left (fun st data => installRule data st) rules st)).
  { revert st. induction rules as [|data rules IH]; intros st; simpl.
    - apply sameButRegistry_refl.
    - eapply sameButRegistry_trans; [apply installRule_same|apply IH]. }
  eapply sameButRegistry_trans; [exact Hfold|]. by repeat split.
Qed.

(** ** The store in every state *)

Lemma store_ext st st' :
  records st' = records st ->
  nonEmptySequences st /\ filedByTab st ->
  nonEmptySequences st' /\ filedByTab st'.
Proof.
  unfold nonEmptySequences, filedByTab. intros ->. done.
Qed.

Lemma store_addRecord (r : RequestRecord Rule) st :
  nonEmptySequences st /\ filedByTab st ->
  nonEmptySequences (snd (addRecord r st)) /\ filedByTab (snd (addRecord r st)).
Proof.
  intros [Hne Hfiled]. unfold nonEmptySequences, filedByTab.
  destruct (addRecord_spec r st) as [_ ->].
  split.
  - intros tab l. destruct (decide (tab = tabId r)) as [->|Hother].
    + rewrite lookup_insert_eq. intros [= <-]. by destruct (default [] _).
    + rewrite lookup_insert_ne by done. apply Hne.
  - intros tab l r'. destruct (decide (tab = tabId r)) as [->|Hother].
    + rewrite lookup_insert_eq. intros [= <-] [Hin|[<-|[]]]%in_app_or; [|done].
      destruct (records st !! tabId r) as [old|] eqn:Hold; [|done].
      by apply (Hfiled (tabId r) old).
    + rewrite lookup_insert_ne by done. apply Hfiled.
Qed.

Lemma records_onResolved (request : Request Rule) (updateTab : bool) st :
  records (onResolved request updateTab st) =
  records (snd (addRecord
                  (mkRecord (r_tabId request) (r_type request) (r_url request)
                     (r_redirectUrl request) (r_timeStamp request) (r_rule request))
                  st)).
Proof. unfold onResolved. simpl. by destruct updateTab. Qed.

Lemma store_requestControlListener (request : Request Rule) st :
  nonEmptySequences st /\ filedByTab st ->
  nonEmptySequences (requestControlListener request st) /\
  filedByTab (requestControlListener request st).
Proof.
  unfold requestControlListener.
  destruct (resolve (controller st) request) as [c calls].
  intros Hst. assert (Hc : nonEmptySequences (set_controller c st) /\
                           filedByTab (set_controller c st)) by done.
  revert Hc. generalize (set_controller c st). clear.
  induction calls as [|[rq up] calls IH]; intros st Hst; simpl; [done|].
  apply IH. eapply store_ext; [apply records_onResolved|].
  by apply store_addRecord.
Qed.

Lemma store_fireBeforeRequest (request : Request Rule) st :
  nonEmptySequences st /\ filedByTab st ->
  nonEmptySequences (fireBeforeRequest request st) /\
  filedByTab (fireBeforeRequest request st).
Proof.
  unfold fireBeforeRequest. generalize (onBeforeRequest (browser st)).
  intros hooks. revert st.
  induction hooks as [|h hooks IH]; intros st Hst; simpl; [done|].
  apply IH. destruct (filter_matches (h_filter h) request); [|done].
  destruct (h_listener h) as [l|]; simpl; [done|].
  by apply store_requestControlListener.
Qed.

Lemma store_resetRecords (details : Details) st :
  nonEmptySequences st /\ filedByTab st ->
  nonEmptySequences (resetRecords details st) /\
  filedByTab (resetRecords details st).
Proof.
  intros [Hne Hfiled]. unfold resetRecords.
  destruct (d_frameId details =? 0); [|done].
  destruct (records st !! d_tabId details) as [recs|] eqn:Hrecs; [|done].
  destruct (last _) as [newest|] eqn:Hlast;
    unfold nonEmptySequences, filedByTab; simpl.
  - split.
    + intros tab l. destruct (decide (tab = d_tabId details)) as [->|Hother].
      * rewrite lookup_insert_eq. intros [= <-] Hnil. by rewrite Hnil in Hlast.
      * rewrite lookup_insert_ne by done. apply Hne.
    + intros tab l r. destruct (decide (tab = d_tabId details)) as [->|Hother].
      * rewrite lookup_insert_eq. intros [= <-] Hin.
        apply (Hfiled (d_tabId details) recs r Hrecs).
        apply list_elem_of_In. eapply sublist_subseteq; [apply keptChain_sublist|].
        by apply list_elem_of_In.
      * rewrite lookup_insert_ne by done. apply Hfiled.
  - split.
    + intros tab l [_ Hl]%lookup_delete_Some. by apply (Hne tab).
    + intros tab l r [_ Hl]%lookup_delete_Some. by apply (Hfiled tab).
Qed.

Lemma store_handle (e : Event Rule RuleData) st :
  nonEmptySequences st /\ filedByTab st ->
  nonEmptySequences (handle e st) /\ filedByTab (handle e st).
Proof.
  intros Hst. destruct e as [options| |request|details|tab]; simpl.
  - unfold init. destruct (disabled options).
    + split; [intros tab l|intros tab l r]; simpl; by rewrite lookup_empty.
    + destruct (addRuleListeners_same (rules options) (call EnabledState st))
        as (Hrecords & _).
      eapply store_ext; [|exact Hst]. simpl. by rewrite Hrecords.
  - done.
  - by apply store_fireBeforeRequest.
  - destruct (webNavigation_onCommitted (browser st)); [|done].
    by apply store_resetRecords.
  - destruct (tabs_onRemoved (browser st)); [|done].
    destruct Hst as [Hne Hfiled]. unfold nonEmptySequences, filedByTab. simpl.
    split.
    + intros t l [_ Hl]%lookup_delete_Some. by apply (Hne t).
    + intros t l r [_ Hl]%lookup_delete_Some. by apply (Hfiled t).
Qed.

(** X8. In every state the script can be in, no tab is mapped to an empty
    array, so that [getRecords] answers with [undefined] or with at least
    one record, and the array of a tab holds only records whose [tabId]
    is that tab. *)
Theorem reachable_store (c : Controller) st :
  reachable c st -> nonEmptySequences st /\ filedByTab st.
Proof.
  induction 1 as [|st e _ IH]; [|by apply store_handle].
  split; [intros tab l|intros tab l r]; simpl; by rewrite lookup_empty.
Qed.

(** ** The dispatcher *)

(** The callback of [requestControlListener] on the store and the
    notifier. *)
Lemma onResolved_spec (request : Request Rule) (updateTab : bool) st :
  let record :=
    mkRecord (r_tabId request) (r_type request) (r_url request)
      (r_redirectUrl request) (r_timeStamp request) (r_rule request) in
  let st' := onResolved request updateTab st in
  records st' =
    <[r_tabId request := default [] (records st !! r_tabId request) ++ [record]]>
      (records st) /\
  notifier st' =
    notifier st ++
    [Notify (r_tabId request) (r_rule request)
       (S (length (default [] (records st !! r_tabId request))))] /\
  controller st' = controller st.
Proof.
  cbv zeta. rewrite records_onResolved.
  destruct (addRecord_spec
              (mkRecord (r_tabId request) (r_type request) (r_url request)
                 (r_redirectUrl request) (r_timeStamp request) (r_rule request)) st)
    as [Hn Hm].
  split; [exact Hm|]. unfold onResolved.
  destruct (addRecord _ st) as [n st1] eqn:Hadd. simpl in Hn. subst n.
  assert (Hst1 : notifier st1 = notifier st /\ controller st1 = controller st).
  { unfold addRecord in Hadd. by injection Hadd as _ <-. }
  destruct Hst1 as [Hnot Hctl]. by destruct updateTab; simpl; rewrite Hnot, Hctl.
Qed.

(** X9. The callback of [requestControlListener] puts the record of the
    request at the end of the sequence of the request's tab and then
    calls [notify] with the length that this sequence has now;
    [tabs.update] is called, with the redirect URL, exactly when
    [updateTab] is set; the hooks and the controller are not touched. *)
Theorem onResolved_effects (request : Request Rule) (updateTab : bool) st :
  let record :=
    mkRecord (r_tabId request) (r_type request) (r_url request)
      (r_redirectUrl request) (r_timeStamp request) (r_rule request) in
  let st' := onResolved request updateTab st in
  (exists sequence,
     records st' !! r_tabId request = Some sequence /\
     sequence = default [] (records st !! r_tabId request) ++ [record] /\
     notifier st' =
       notifier st ++
       [Notify (r_tabId request) (r_rule request) (length sequence)]) /\
  (forall other, other <> r_tabId request ->
     records st' !! other = records st !! other) /\
  tabs_update (browser st') =
    tabs_update (browser st) ++
    (if updateTab then [(r_tabId request, r_redirectUrl request)] else []) /\
  onBeforeRequest (browser st') = onBeforeRequest (browser st) /\
  controller st' = controller st.
Proof.
  cbv zeta. unfold onResolved. simpl.
  destruct updateTab; simpl; rewrite ?app_nil_r;
    (split; [eexists; split; [apply lookup_insert_eq|]; by destruct (records st !! _)|]);
    (split; [intros other Hne; by rewrite lookup_insert_ne|done]).
Qed.

Lemma onResolved_run (calls : list (Request Rule * bool)) st (tab : Z) :
  let st' := fold_left (fun st rc => onResolved (fst rc) (snd rc) st) calls st in
  length (default [] (records st' !! tab)) =
    (length (default [] (records st !! tab)) +
     length (List.filter (fun rc => Z.eqb (r_tabId (fst rc)) tab) calls))%nat /\
  length (notifier st') = (length (notifier st) + length calls)%nat /\
  controller st' = controller st.
Proof.
  revert st. induction calls as [|[rq up] calls IH]; intros st; simpl.
  - repeat split; lia.
  - destruct (IH (onResolved rq up st)) as (Hrecords & Hnotifier & Hcontroller).
    destruct (onResolved_spec rq up st) as (Hm & Hn & Hc).
    cbv zeta in *. rewrite Hrecords, Hnotifier, Hcontroller, Hc, Hn, Hm.
    rewrite length_app. simpl. split; [|split; [lia|done]].
    destruct (Z.eqb_spec (r_tabId rq) tab) as [<-|Hne].
    + rewrite lookup_insert_eq. simpl. rewrite length_app. simpl. lia.
    + rewrite lookup_insert_ne by done. lia.
Qed.

(** X10. [requestControlListener] makes one record and one call on the
    notifier for each call that [resolve] makes to its callback, and none
    otherwise: the sequence of a tab grows by the number of callbacks for
    requests of that tab, the log of the notifier by the number of all
    callbacks. *)
Theorem requestControlListener_counts (request : Request Rule) st (tab : Z) :
  let calls := snd (resolve (controller st) request) in
  let st' := requestControlListener request st in
  length (default [] (records st' !! tab)) =
    (length (default [] (records st !! tab)) +
     length (List.filter (fun rc => Z.eqb (r_tabId (fst rc)) tab) calls))%nat /\
  length (notifier st') = (length (notifier st) + length calls)%nat /\
  controller st' = fst (resolve (controller st) request).
Proof.
  cbv zeta. unfold requestControlListener.
  destruct (resolve (controller st) request) as [c calls]. simpl.
  destruct (onResolved_run calls (set_controller c st) tab) as (H1 & H2 & H3).
  done.
Qed.

(** ** [initOnChange] and [init] *)

(** X12. A change of the options and the [init] that belongs to it, with
    [disabled] not set and a list of rules, in any state the script can
    be in, when no other [init] runs between the [initOnChange] and this
    [init] (requests, commits, closed tabs and further changes may): what
    is registered on [webRequest.onBeforeRequest] afterwards is exactly
    the hooks of the active rules of the list for which nothing in the
    [try] block throws, in the order of the list, followed by the hook of
    [requestControlListener]; nothing of the old options is left,
    [requestListeners] holds exactly the listeners of these hooks, and
    the notifier got [enabledState] and one [error] for each other active
    rule. *)
Theorem reload_rebuilds (c : Controller) st (options : Options RuleData)
    (rs : list RuleData) (es : list (Event Rule RuleData)) :
  reachable c st ->
  disabled options = false ->
  rules options = Some rs ->
  noLoad es = true ->
  let st0 := run es (initOnChange st) in
  exists new,
    onBeforeRequest (browser (init options st0)) = new ++ [controlHook] /\
    forallb isRuleHook new = true /\
    map hookSource new = map ruleSource (installable rs) /\
    requestListeners (init options st0) = hookListeners new /\
    notifier (init options st0) =
      notifier st0 ++
      EnabledState :: map (fun _ => Error None "error_invalid_rule") (rejected rs).
Proof.
  intros Hreach Hdis Hrules Hquiet st0.
  destruct (quiet_after_initOnChange c st es Hreach Hquiet) as [Hnone Hlisteners].
  fold st0 in Hnone, Hlisteners.
  assert (Hfresh : fresh (call EnabledState st0)).
  { intros l. unfold call. cbn [browser]. rewrite Hnone. by intros []. }
  destruct (addRuleListeners_spec rs (call EnabledState st0) Hfresh)
    as (new & Hspec & Hall & Hmap & _).
  exists new. unfold init. rewrite Hdis, Hrules. cbv zeta.
  rewrite Hspec. cbn [browser call requestListeners notifier] in *.
  rewrite Hnone, Hlisteners. simpl.
  repeat split; auto. by rewrite <- app_assoc.
Qed.

(** X13. A request, a commit and a closed tab never change what is
    registered on [webRequest.onBeforeRequest] nor [requestListeners]:
    only [init] and [initOnChange] do. *)
Theorem events_keep_registry (request : Request Rule) (details : Details)
    (tab : Z) st :
  registry (handle (BeforeRequest request) st) = registry st /\
  registry (handle (Committed details) st) = registry st /\
  registry (handle (TabRemoved tab) st) = registry st.
Proof.
  simpl. split; [apply registry_fireBeforeRequest|]. split.
  - destruct (webNavigation_onCommitted (browser st)); [|done].
    apply registry_resetRecords.
  - by destruct (tabs_onRemoved (browser st)).
Qed.

(** X15. Every [init] calls [handlerBehaviorChanged] once and leaves the
    listeners for closed tabs, commits and messages registered exactly
    when [disabled] is not set.  With [disabled] set it empties the
    records, clears the controller and tells the notifier the records
    that were there, but removes nothing from
    [webRequest.onBeforeRequest]; otherwise it leaves the records and the
    controller as they are. *)
Theorem init_effects (options : Options RuleData) st :
  let st' := init options st in
  handlerBehaviorChanged (browser st') = S (handlerBehaviorChanged (browser st)) /\
  tabs_onRemoved (browser st') = negb (disabled options) /\
  webNavigation_onCommitted (browser st') = negb (disabled options) /\
  runtime_onMessage (browser st') = negb (disabled options) /\
  tabs_update (browser st') = tabs_update (browser st) /\
  if disabled options
  then records st' = ∅ /\
       controller st' = clear (controller st) /\
       notifier st' = notifier st ++ [DisabledState (records st)] /\
       onBeforeRequest (browser st') = onBeforeRequest (browser st) /\
       requestListeners st' = requestListeners st
  else records st' = records st /\
       controller st' = controller st.
Proof.
  cbv zeta. unfold init. destruct (disabled options); simpl; [done|].
  destruct (addRuleListeners_same (rules options) (call EnabledState st))
    as (H1 & H2 & _ & _ & _ & _ & H7 & H8).
  rewrite H1, H2, H7, H8. done.
Qed.

(** ** The bookkeeping of the listeners *)

Lemma bookkeeping_addRuleListeners (rules : option (list RuleData)) st :
  fresh st ->
  hookListeners (onBeforeRequest (browser st)) = requestListeners st ->
  hookListeners (onBeforeRequest (browser (addRuleListeners rules st))) =
  requestListeners (addRuleListeners rules st).
Proof.
  intros Hfresh Hbook. destruct rules as [rules|]; [|done].
  destruct (addRuleListeners_spec rules st Hfresh) as (new & -> & _).
  simpl. destruct (existsb _ _); rewrite !hookListeners_app, Hbook; [done|].
  unfold hookListeners at 3. simpl. by rewrite app_nil_r.
Qed.

(** X20. In every state the script can be in, [requestListeners] holds
    exactly the listeners of rules that are registered on
    [webRequest.onBeforeRequest], in the order of their registration: the
    loop of [initOnChange] unregisters all of them and none else. *)
Theorem reachable_bookkeeping (c : Controller) st :
  reachable c st ->
  hookListeners (onBeforeRequest (browser st)) = requestListeners st.
Proof.
  induction 1 as [|st e Hreach IH]; [done|].
  destruct (reachable_registry_ok c st Hreach) as (Htracked & Hfresh & _).
  assert (Hsame : forall st', registry st' = registry st ->
            hookListeners (onBeforeRequest (browser st')) = requestListeners st').
  { intros st'. unfold registry. by intros [= -> -> _]. }
  destruct e as [options| |request|details|tab]; simpl.
  - unfold init. destruct (disabled options); [done|].
    exact (bookkeeping_addRuleListeners (rules options) (call EnabledState st)
             Hfresh IH).
  - pose proof (initOnChange_no_hooks st Htracked) as Hnone.
    simpl in Hnone. by rewrite Hnone.
  - apply Hsame, registry_fireBeforeRequest.
  - destruct (webNavigation_onCommitted (browser st)); [|done].
    apply Hsame, registry_resetRecords.
  - by destruct (tabs_onRemoved (browser st)).
Qed.

End Lifecycle.



(** * The popup *)

Section PopupFacts.

Local Open Scope nat_scope.

(** ** Strings *)

Lemma length_append (a b : string) :
  String.length (a +:+ b) = String.length a + String.length b.
Proof. induction a as [|x a IH]; simpl; [done|]. by rewrite IH. Qed.

Lemma length_repeat (s : string) (count : nat) :
  String.length (Popup.repeat s count) = count * String.length s.
Proof.
  induction count as [|count IH]; simpl; [done|].
  by rewrite length_append, IH.
Qed.

Lemma length_two (s : string) :
  String.length s = 2 -> exists x y, s = String x (String y EmptyString).
Proof.
  destruct s as [|x [|y [|z s]]]; simpl; try discriminate. intros _. by eexists _, _.
Qed.

Lemma length_three (s : string) :
  String.length s = 3 ->
  exists x y z, s = String x (String y (String z EmptyString)).
Proof.
  destruct s as [|x [|y [|z [|w s]]]]; simpl; try discriminate.
  intros _. by eexists _, _, _.
Qed.

(** ** [padDigit] *)

(** X16. For a non-negative integer below [10^21], [padDigit] puts zeros
    in front of the digits of the number until there are [padSize]
    characters; a number that has [padSize] digits or more gets no zero
    and keeps all its digits. *)
Theorem padDigit_pads (digit padSize : nat) :
  (Z.of_nat digit <? 10 ^ 21)%Z = true ->
  let str := Popup.toString digit in
  Popup.padDigit digit padSize =
    Popup.repeat "0" (padSize - String.length str) +:+ str /\
  String.length (Popup.padDigit digit padSize) =
    Nat.max padSize (String.length str).
Proof.
  intros _. cbv zeta. unfold Popup.padDigit.
  set (str := Popup.toString digit).
  destruct (Z.gtb_spec (Z.of_nat padSize - Z.of_nat (String.length str)) 0)
    as [Hpad|Hpad].
  - replace (Z.to_nat (Z.of_nat padSize - Z.of_nat (String.length str)))
      with (padSize - String.length str) by lia.
    split; [done|].
    rewrite length_append, length_repeat. simpl. lia.
  - replace (padSize - String.length str) with 0 by lia. simpl.
    split; [done|lia].
Qed.

(** The numbers that the getters return have at most as many digits as
    [timestamp] asks for, and different numbers are padded to different
    strings. *)
Lemma padDigit_two (n : nat) : n < 100 -> String.length (Popup.padDigit n 2) = 2.
Proof.
  intros Hn.
  assert (Hall : forallb (fun n => Nat.eqb (String.length (Popup.padDigit n 2)) 2)
                   (seq 0 100) = true) by (vm_compute; reflexivity).
  rewrite forallb_forall in Hall. apply Nat.eqb_eq, Hall, in_seq. lia.
Qed.

Lemma padDigit_three (n : nat) : n < 1000 -> String.length (Popup.padDigit n 3) = 3.
Proof.
  intros Hn.
  assert (Hall : forallb (fun n => Nat.eqb (String.length (Popup.padDigit n 3)) 3)
                   (seq 0 1000) = true) by (vm_compute; reflexivity).
  rewrite forallb_forall in Hall. apply Nat.eqb_eq, Hall, in_seq. lia.
Qed.

Lemma padDigit_distinct (size bound n m : nat) :
  bool_decide (NoDup (map (fun n => Popup.padDigit n size) (seq 0 bound))) = true ->
  n < bound -> m < bound ->
  Popup.padDigit n size = Popup.padDigit m size -> n = m.
Proof.
  intros Hnd%bool_decide_eq_true Hn Hm Heq.
  apply (proj1 (NoDup_alt _) Hnd n m (Popup.padDigit n size)).
  - change (map ?f ?l) with (f <$> l).
    by rewrite list_lookup_fmap, lookup_seq_lt.
  - change (map ?f ?l) with (f <$> l).
    rewrite list_lookup_fmap, lookup_seq_lt by done. simpl. by rewrite Heq.
Qed.

Lemma padDigit_two_inj (n m : nat) :
  n < 100 -> m < 100 -> Popup.padDigit n 2 = Popup.padDigit m 2 -> n = m.
Proof. apply padDigit_distinct. vm_compute. reflexivity. Qed.

Lemma padDigit_three_inj (n m : nat) :
  n < 1000 -> m < 1000 -> Popup.padDigit n 3 = Popup.padDigit m 3 -> n = m.
Proof. apply padDigit_distinct. vm_compute. reflexivity. Qed.

(** ** [timestamp] *)

Lemma validDate_bounds (d : Popup.Date) :
  Popup.validDate d = true ->
  Popup.getHours d < 100 /\ Popup.getMinutes d < 100 /\
  Popup.getSeconds d < 100 /\ Popup.getMilliseconds d < 1000.
Proof.
  unfold Popup.validDate. intros H.
  apply andb_prop in H as [H Hms]. apply andb_prop in H as [H Hs].
  apply andb_prop in H as [Hh Hm].
  apply Nat.ltb_lt in Hh, Hm, Hs, Hms. lia.
Qed.

(** The parts of what [timestamp] returns. *)
Lemma timestamp_parts (d : Popup.Date) :
  Popup.validDate d = true ->
  let s := Popup.timestamp d in
  String.length s = 12 /\
  substring 0 2 s = Popup.padDigit (Popup.getHours d) 2 /\
  substring 2 1 s = ":"%string /\
  substring 3 2 s = Popup.padDigit (Popup.getMinutes d) 2 /\
  substring 5 1 s = ":"%string /\
  substring 6 2 s = Popup.padDigit (Popup.getSeconds d) 2 /\
  substring 8 1 s = "."%string /\
  substring 9 3 s = Popup.padDigit (Popup.getMilliseconds d) 3.
Proof.
  intros (Hh & Hm & Hs & Hms)%validDate_bounds. cbv zeta. unfold Popup.timestamp.
  destruct (length_two _ (padDigit_two _ Hh)) as (h1 & h2 & ->).
  destruct (length_two _ (padDigit_two _ Hm)) as (m1 & m2 & ->).
  destruct (length_two _ (padDigit_two _ Hs)) as (s1 & s2 & ->).
  destruct (length_three _ (padDigit_three _ Hms)) as (x1 & x2 & x3 & ->).
  simpl. done.
Qed.

(** X17. For a [Date] whose getters are in their ranges, [timestamp] is
    twelve characters long, ["hh:mm:ss.mmm"]: the padded hours, minutes,
    seconds and milliseconds at the positions 0, 3, 6 and 9, with two
    colons and a dot between them. *)
Theorem timestamp_format (d : Popup.Date) :
  Popup.validDate d = true ->
  let s := Popup.timestamp d in
  String.length s = 12 /\
  substring 0 2 s = Popup.padDigit (Popup.getHours d) 2 /\
  substring 2 1 s = ":"%string /\
  substring 3 2 s = Popup.padDigit (Popup.getMinutes d) 2 /\
  substring 5 1 s = ":"%string /\
  substring 6 2 s = Popup.padDigit (Popup.getSeconds d) 2 /\
  substring 8 1 s = "."%string /\
  substring 9 3 s = Popup.padDigit (Popup.getMilliseconds d) 3.
Proof.
  intros Hvalid. cbv zeta. unfold Popup.timestamp.
  destruct (validDate_bounds d Hvalid) as (Hh & Hm & Hs & Hms).
  pose proof (padDigit_two _ Hh) as Lh. pose proof (padDigit_two _ Hm) as Lm.
  pose proof (padDigit_two _ Hs) as Ls. pose proof (padDigit_three _ Hms) as Lx.
  apply length_two in Lh as (h1 & h2 & ->). apply length_two in Lm as (m1 & m2 & ->).
  apply length_two in Ls as (s1 & s2 & ->).
  apply length_three in Lx as (x1 & x2 & x3 & ->).
  repeat split; reflexivity.
Qed.

(** X18. Two [Date]s whose getters are in their ranges and that
    [timestamp] shows alike have the same hours, minutes, seconds and
    milliseconds. *)
Theorem timestamp_inj (d1 d2 : Popup.Date) :
  Popup.validDate d1 = true ->
  Popup.validDate d2 = true ->
  Popup.timestamp d1 = Popup.timestamp d2 ->
  d1 = d2.
Proof.
  intros Hv1 Hv2 Heq.
  destruct (timestamp_parts d1 Hv1) as (_ & Hh1 & _ & Hm1 & _ & Hs1 & _ & Hx1).
  destruct (timestamp_parts d2 Hv2) as (_ & Hh2 & _ & Hm2 & _ & Hs2 & _ & Hx2).
  rewrite Heq in Hh1, Hm1, Hs1, Hx1.
  rewrite Hh2 in Hh1. rewrite Hm2 in Hm1. rewrite Hs2 in Hs1. rewrite Hx2 in Hx1.
  apply validDate_bounds in Hv1 as (? & ? & ? & ?).
  apply validDate_bounds in Hv2 as (? & ? & ? & ?).
  apply padDigit_two_inj in Hh1, Hm1, Hs1; try done.
  apply padDigit_three_inj in Hx1; try done.
  destruct d1, d2. simpl in *. congruence.
Qed.

(** ** [getRule] *)

(** X19. [getRule] returns the first rule of the list that has the uuid,
    and [null] exactly when no rule of the list has it. *)
Theorem getRule_first {RuleData : Type} (rule_uuid : RuleData -> string)
    (rules : list RuleData) (uuid : string) :
  match Popup.getRule rule_uuid rules uuid with
  | Some rule =>
    exists before after,
      rules = before ++ rule :: after /\
      rule_uuid rule = uuid /\
      Forall (fun r => rule_uuid r <> uuid) before
  | None => Forall (fun r => rule_uuid r <> uuid) rules
  end.
Proof.
  induction rules as [|rule rules IH]; simpl; [done|].
  destruct (String.eqb_spec (rule_uuid rule) uuid) as [Heq|Hne].
  - exists [], rules. by repeat split.
  - destruct (Popup.getRule rule_uuid rules uuid) as [found|].
    + destruct IH as (before & after & -> & Hfound & Hbefore).
      exists (rule :: before), after. repeat split; auto.
    + by constructor.
Qed.

End PopupFacts.

(** * The further theorems on the small instance *)

(** X1 on tab 7 of [tabOne]. *)
Lemma removeRecords_missing_witness :
  records (tabOne chainAndMore) !! 7 = None /\
  removeRecords 7 (tabOne chainAndMore) = tabOne chainAndMore.
Proof.
  split; [reflexivity|]. apply removeRecords_missing. reflexivity.
Defined.

(** X2 on a commit in frame 3 of tab 1. *)
Lemma resetRecords_ignores_witness :
  Z.eqb (d_frameId (mkDetails 1 3 "C" [])) 0 = false /\
  resetRecords (mkDetails 1 3 "C" []) (tabOne chainAndMore) = tabOne chainAndMore.
Proof.
  split; [reflexivity|]. apply resetRecords_ignores. left. reflexivity.
Defined.

(** X4 on [chainAndMore] and a commit to [C]. *)
Lemma resetRecords_subsequence_witness :
  records (resetRecords (commit "C" false) (tabOne chainAndMore)) !! 1 =
    Some [hop "A" "B" 1; hop "B" "C" 2] /\
  [hop "A" "B" 1; hop "B" "C" 2] `sublist_of` drop (3 - 10) chainAndMore.
Proof.
  split; [reflexivity|].
  apply (resetRecords_subsequence (commit "C" false) (tabOne chainAndMore)
           chainAndMore [hop "A" "B" 1; hop "B" "C" 2]); reflexivity.
Defined.

(** X5 on [chainAndMore] and a commit to [C]. *)
Lemma resetRecords_chained_witness :
  records (resetRecords (commit "C" false) (tabOne chainAndMore)) !! 1 =
    Some [hop "A" "B" 1; hop "B" "C" 2] /\
  chained [hop "A" "B" 1; hop "B" "C" 2].
Proof.
  split; [reflexivity|].
  apply (resetRecords_chained (commit "C" false) (tabOne chainAndMore)
           chainAndMore [hop "A" "B" 1; hop "B" "C" 2]); reflexivity.
Defined.

(** X6 on [chainAndMore] and a commit to [C]: the record [B -> C] is the
    newest that passes. *)
Lemma resetRecords_anchor_last_witness :
  anchors "C" false (hop "B" "C" 2) = true /\
  exists chain,
    chain `sublist_of` [hop "A" "B" 1] /\
    records (resetRecords (commit "C" false) (tabOne chainAndMore)) !! 1 =
      Some (chain ++ [hop "B" "C" 2]) /\
    notifier (resetRecords (commit "C" false) (tabOne chainAndMore)) =
      [Notify 1 (Some "rule") (length (chain ++ [hop "B" "C" 2]))].
Proof.
  split; [reflexivity|].
  apply (resetRecords_anchor_last (commit "C" false) (tabOne chainAndMore)
           [hop "A" "B" 1] [plain "s" 3] (hop "B" "C" 2));
    try reflexivity. simpl. lia.
Defined.

(** X7 on [chainAndMore] and a commit to [C]. *)
Lemma resetRecords_twice_witness :
  anchors "C" false (hop "B" "C" 2) = true /\
  records (resetRecords (commit "C" false)
             (resetRecords (commit "C" false) (tabOne chainAndMore))) =
  records (resetRecords (commit "C" false) (tabOne chainAndMore)).
Proof.
  split; [reflexivity|].
  assert (Hnewer : (length [plain "s" 3] < 5)%nat) by (simpl; lia).
  destruct (resetRecords_twice (commit "C" false) (tabOne chainAndMore)
              [hop "A" "B" 1] [plain "s" 3] (hop "B" "C" 2)
              eq_refl eq_refl Hnewer eq_refl eq_refl)
    as [Hrecords _].
  exact Hrecords.
Defined.

(** X8 on [busyState]. *)
Lemma reachable_store_witness :
  reachable (@None string) busyState /\
  nonEmptySequences busyState /\ filedByTab busyState.
Proof.
  assert (H : reachable (@None string) busyState).
  { unfold busyState. apply reachable_handle, reachable_handle, reachable_initial. }
  split; [exact H|]. exact (reachable_store None busyState H).
Defined.

(** X12 on [busyState] and a change to options with [exampleRules], with
    [quietEvents] before the [init]. *)
Lemma reload_rebuilds_witness :
  reachable (@None string) busyState /\
  noLoad quietEvents = true /\
  exists new,
    onBeforeRequest
      (browser (init (mkOptions false (Some exampleRules))
                  (run quietEvents (initOnChange busyState)))) =
      new ++ [controlHook] /\
    requestListeners
      (init (mkOptions false (Some exampleRules))
         (run quietEvents (initOnChange busyState))) =
      hookListeners new.
Proof.
  assert (H : reachable (@None string) busyState).
  { unfold busyState. apply reachable_handle, reachable_handle, reachable_initial. }
  split; [exact H|]. split; [reflexivity|].
  destruct (reload_rebuilds None busyState (mkOptions false (Some exampleRules))
              exampleRules quietEvents H eq_refl eq_refl eq_refl)
    as (new & Hhooks & _ & _ & Hlisteners & _).
  exists new. split; [exact Hhooks|exact Hlisteners].
Defined.

(** X16 on 7 and 1234, padded to three characters. *)
Lemma padDigit_pads_witness :
  (Z.of_nat 7 <? 10 ^ 21)%Z = true /\
  Popup.padDigit 7 3 = "007"%string /\
  String.length (Popup.padDigit 1234 3) = 4%nat.
Proof.
  split; [reflexivity|].
  destruct (padDigit_pads 7 3 eq_refl) as [Hpadded _].
  destruct (padDigit_pads 1234 3 eq_refl) as [_ Hlength].
  split; [exact Hpadded|exact Hlength].
Defined.

(** X17 on [Popup.exampleDate]. *)
Lemma timestamp_format_witness :
  Popup.validDate Popup.exampleDate = true /\
  String.length (Popup.timestamp Popup.exampleDate) = 12%nat.
Proof.
  split; [reflexivity|].
  destruct (timestamp_format Popup.exampleDate) as [Hlength _]; [reflexivity|].
  exact Hlength.
Defined.

(** X18 on [Popup.exampleDate] and the same time written out. *)
Lemma timestamp_inj_witness :
  Popup.timestamp Popup.exampleDate = Popup.timestamp (Popup.mkDate 9 15 7 42) /\
  Popup.exampleDate = Popup.mkDate 9 15 7 42.
Proof.
  split; [reflexivity|].
  apply timestamp_inj; reflexivity.
Defined.

(** X21 on the empty array. *)
Lemma lastRecord_undefined_empty_witness :
  lastRecord (findAnchor 5 "z" false (mkScan (@nil (RequestRecord string)) [] None))
    = None /\
  tabRecords (findAnchor 5 "z" false (mkScan (@nil (RequestRecord string)) [] None))
    = [].
Proof.
  split; [reflexivity|].
  destruct (lastRecord_undefined_empty "z" false (@nil (RequestRecord string)))
    as [_ Hleft]; [reflexivity|].
  exact Hleft.
Defined.

(** X20 on [busyState]. *)
Lemma reachable_bookkeeping_witness :
  reachable (@None string) busyState /\
  hookListeners (onBeforeRequest (browser busyState)) = requestListeners busyState.
Proof.
  assert (H : reachable (@None string) busyState).
  { unfold busyState. apply reachable_handle, reachable_handle, reachable_initial. }
  split; [exact H|]. exact (reachable_bookkeeping None busyState H).
Defined.
